(** * UK Finance Dashboard: the categorisation core of [main.py]

    A shallow embedding of the text normaliser, the category store, the
    categoriser, the transaction loader and the savings-goal block of
    [main.py], with the properties of the specification settled on it.

    Conventions of the embedding.
    - A Python [str] is a [text], a list of characters with code points
      below 256.  [is_space], [is_digit] and [is_AZ] agree with
      [str.isspace] (which is also the white space of [str.strip],
      [str.split] and the regex class [\s]), with [\d] and with [[A-Z]] on
      all of them.  [to_upper] agrees with [str.upper] on all of them but
      three, whose upper case lies outside the range: U+00B5 (to U+039C),
      U+00DF (to "SS") and U+00FF (to U+0178), which the embedding leaves
      as they are.
    - The category store is a Python [dict], whose iteration order is the
      insertion order: an association list.
    - A data frame with its default [RangeIndex] is the list of its rows;
      [df.at[idx, "Category"] = c] is an update at position [idx].
    - Amounts are rationals: the comparisons and the one division the
      properties depend on are exact on them.  The NaN that pandas gives
      an empty Amount cell has no counterpart in the embedding.
    - An exception is a value: code that can raise returns a [result]. *)

From Stdlib Require Import Ascii String Bool Arith Lia ZArith QArith Qabs
  Qminmax List.
Import ListNotations.
Close Scope Q_scope.

(** ** Text *)

Definition text := list ascii.

Definition str (s : string) : text := list_ascii_of_string s.

Definition code (c : ascii) : N := N_of_ascii c.

(** [str.isspace] below 256: tab, newline, vertical tab, form feed, carriage
    return, the four separators 0x1c-0x1f, the space, the next-line control
    U+0085 and the no-break space U+00A0. *)
Definition is_space (c : ascii) : bool :=
  let n := code c in
  ((9 <=? n) && (n <=? 13) || (28 <=? n) && (n <=? 32)
   || (n =? 133) || (n =? 160))%N.

Definition is_digit (c : ascii) : bool :=
  let n := code c in ((48 <=? n) && (n <=? 57))%N.

Definition is_AZ (c : ascii) : bool :=
  let n := code c in ((65 <=? n) && (n <=? 90))%N.

(** [str.upper] on one character: the letters a-z, and the Latin-1 letters
    U+00E0-U+00FE without the division sign U+00F7. *)
Definition to_upper (c : ascii) : ascii :=
  let n := code c in
  if ((97 <=? n) && (n <=? 122)
      || (224 <=? n) && (n <=? 254) && negb (n =? 247))%N
  then ascii_of_N (n - 32) else c.

(** [s.upper()] *)
Definition upper (s : text) : text := map to_upper s.

Fixpoint lstrip (s : text) : text :=
  match s with
  | c :: t => if is_space c then lstrip t else s
  | [] => []
  end.

Definition rstrip (s : text) : text := rev (lstrip (rev s)).

(** [s.strip()] *)
Definition strip (s : text) : text := lstrip (rstrip s).

Definition text_dec : forall a b : text, {a = b} + {a <> b} :=
  list_eq_dec ascii_dec.

Definition text_eqb (a b : text) : bool :=
  if text_dec a b then true else false.

Fixpoint startswith (s p : text) : bool :=
  match p, s with
  | [], _ => true
  | c :: p', d :: s' => if ascii_dec c d then startswith s' p' else false
  | _ :: _, [] => false
  end.

(** [s.endswith(suffix)] *)
Definition endswith (s suffix : text) : bool :=
  startswith (rev s) (rev suffix).

(** [s[:-n]] for [0 < n]. *)
Definition drop_last (n : nat) (s : text) : text :=
  firstn (length s - n) s.

(** [needle in s] *)
Fixpoint contains (s needle : text) : bool :=
  startswith s needle ||
  match s with
  | [] => false
  | _ :: t => contains t needle
  end.

(** [s.split()]: the maximal runs of non-space characters; [cur] is the word
    being read, reversed. *)
Fixpoint split_from (cur : text) (s : text) : list text :=
  match s with
  | [] => match cur with [] => [] | _ => [rev cur] end
  | c :: t =>
      if is_space c
      then match cur with
           | [] => split_from [] t
           | _ => rev cur :: split_from [] t
           end
      else split_from (c :: cur) t
  end.

Definition split (s : text) : list text := split_from [] s.

(** [sep.join(ws)] *)
Fixpoint join (sep : text) (ws : list text) : text :=
  match ws with
  | [] => []
  | [w] => w
  | w :: rest => w ++ sep ++ join sep rest
  end.

(** ** The text normaliser, [clean_transaction_details] *)

Definition suffixes_to_remove : list text :=
  [str " CPM"; str " CLP"; str " BCC"; str " DDR"; str " BGC"; str " STO";
   str " FT"].

(** One turn of the loop over [suffixes_to_remove]. *)
Definition remove_suffix (details suffix : text) : text :=
  if endswith details suffix then drop_last (length suffix) details
  else details.

(** The whole loop; there is no [break] in it. *)
Definition strip_suffixes (details : text) : text :=
  fold_left remove_suffix suffixes_to_remove details.

(** Number of leading white-space characters. *)
Fixpoint lead_ws (s : text) : nat :=
  match s with
  | c :: t => if is_space c then S (lead_ws t) else 0
  | [] => 0
  end.

(** A match of [\s+ON\s+\d{2}\s+[A-Z]{3}] at the head of [s], as the length
    of the matched text.  Each [\s+] is followed by a character that is not
    white space, so the greedy run is the only one that can match and no
    backtracking is left to model. *)
Definition match_date (s : text) : option nat :=
  let n1 := lead_ws s in
  match n1, skipn n1 s with
  | S _, o :: n :: s2 =>
      if ascii_dec o "O"%char then if ascii_dec n "N"%char then
        let n2 := lead_ws s2 in
        match n2, skipn n2 s2 with
        | S _, d1 :: d2 :: s3 =>
            if is_digit d1 && is_digit d2 then
              let n3 := lead_ws s3 in
              match n3, skipn n3 s3 with
              | S _, a :: b :: c :: _ =>
                  if is_AZ a && is_AZ b && is_AZ c
                  then Some (n1 + 2 + n2 + 2 + n3 + 3)
                  else None
              | _, _ => None
              end
            else None
        | _, _ => None
        end
      else None else None
  | _, _ => None
  end.

(** [re.sub(pattern, '', s)]: the leftmost matches, not overlapping, are
    dropped; [skip] counts the characters of the current match still to
    drop. *)
Fixpoint re_sub_date (skip : nat) (s : text) : text :=
  match s with
  | [] => []
  | c :: t =>
      match skip with
      | S k => re_sub_date k t
      | 0 =>
          match match_date s with
          | Some (S k) => re_sub_date k t
          | _ => c :: re_sub_date 0 t
          end
      end
  end.

Definition clean_transaction_details (details : text) : text :=
  let details := strip (upper details) in
  let details := strip_suffixes details in
  let details := re_sub_date 0 details in
  join (str " ") (split details).

(** ** Exceptions as values *)

Inductive exn : Type :=
| KeyError (key : text)
| NotInIndex (missing : list text)
| ValueError (message : text)
| ParserError (message : text)
| AttributeError (message : text).

Definition double_quote : text := ["034"%char].

(** ['name'] *)
Definition quoted (name : text) : text := str "'" ++ name ++ str "'".

(** [str(e)].  [KeyError(key)] prints the [repr] of its key; [NotInIndex]
    is the [KeyError] pandas raises for [df[[...]]], whose argument is the
    message "['A', 'B'] not in index" and prints in double quotes. *)
Definition exn_str (e : exn) : text :=
  match e with
  | KeyError key => quoted key
  | NotInIndex missing =>
      double_quote ++ str "[" ++ join (str ", ") (map quoted missing)
      ++ str "] not in index" ++ double_quote
  | ValueError m | ParserError m | AttributeError m => m
  end.

Inductive result (A : Type) : Type :=
| Ok (a : A)
| Raise (e : exn).

Arguments Ok {A} a.
Arguments Raise {A} e.

Definition bind {A B : Type} (r : result A) (k : A -> result B) : result B :=
  match r with
  | Ok a => k a
  | Raise e => Raise e
  end.

Notation "x <- r ;; k" := (bind r (fun x => k))
  (at level 61, r at next level, right associativity).

Fixpoint mapM {A B : Type} (f : A -> result B) (l : list A) : result (list B) :=
  match l with
  | [] => Ok []
  | a :: t => b <- f a ;; bs <- mapM f t ;; Ok (b :: bs)
  end.

(** ** The category store *)

(** A [dict] from category name to keyword list, in insertion order. *)
Definition store := list (text * list text).

Definition Uncategorized : text := str "Uncategorized".

Definition DEFAULT_CATEGORIES : store :=
  [ (Uncategorized, []);
    (str "Groceries",
      [str "COOP"; str "TESCO"; str "SAINSBURY"; str "ALDI"; str "LIDL";
       str "ASDA"; str "MORRISONS"; str "WAITROSE"]);
    (str "Dining & Pubs",
      [str "COSTA"; str "STARBUCKS"; str "CAFE"; str "RESTAURANT"; str "PUB";
       str "BAR"; str "DORSET ARMS"; str "MARINERS INN"]);
    (str "Transport",
      [str "TRANSPORT"; str "TAXI"; str "UBER"; str "TRAIN"; str "BUS";
       str "FUEL"; str "PARKING"]);
    (str "Shopping",
      [str "AMAZON"; str "NEXT"; str "MARKS"; str "SPENCER"; str "BOOTS"]);
    (str "Bills & Utilities",
      [str "ELECTRIC"; str "GAS"; str "WATER"; str "COUNCIL TAX";
       str "TV LICENSE"; str "INTERNET"; str "PHONE"; str "GOOGLE ONE"]);
    (str "Entertainment",
      [str "CINEMA"; str "NETFLIX"; str "SPOTIFY"; str "STEAM";
       str "EVE ONLINE"]);
    (str "Health", [str "NHS"; str "PHARMACY"; str "DENTAL"; str "OPTICAL"]);
    (str "Rent & Housing", [str "RENT"; str "MORTGAGE"; str "INSURANCE"]);
    (str "Transfers",
      [str "REVOLUT"; str "TRANSFER"; str "BGC"; str "SAVINGS"]);
    (str "Direct Debits", [str "DDR"; str "DIRECT DEBIT"]);
    (str "Salary", [str "ARCADIA EXPR          SALARY"]);
    (str "Bonus", [str "ARCADIA EXPR          BONUS"]);
    (str "Interest", [str "INTEREST"]);
    (str "Refunds", [str "REFUND"; str "REBATE"]);
    (str "Other Income", []) ].

(** [key in m] *)
Definition has_key (key : text) (m : store) : bool :=
  existsb (fun kv => text_eqb (fst kv) key) m.

(** [m[key]], a [KeyError] when the key is absent. *)
Fixpoint getitem (key : text) (m : store) : result (list text) :=
  match m with
  | [] => Raise (KeyError key)
  | (k, v) :: rest => if text_eqb k key then Ok v else getitem key rest
  end.

(** [m[key].append(keyword)] on a key that is present. *)
Fixpoint append_at (key keyword : text) (m : store) : store :=
  match m with
  | [] => []
  | (k, v) :: rest =>
      if text_eqb k key then (k, v ++ [keyword]) :: rest
      else (k, v) :: append_at key keyword rest
  end.

(** [keyword in keywords] *)
Definition mem (keyword : text) (keywords : list text) : bool :=
  existsb (text_eqb keyword) keywords.

(** The part of [st.session_state] and of the disk the store lives in:
    [category_file] is the mapping [categories.json] holds, [None] while the
    file does not exist. *)
Record session : Type := {
  categories : store;
  category_file : option store
}.

(** Lines 36-41, run at the top of every script run: [previous] is
    [st.session_state.categories] as the last run left it, [None] in a new
    browser session; [file] is the content of [categories.json]. *)
Definition init_session (previous : option store) (file : option store)
  : session :=
  let categories0 :=
    match previous with
    | None => DEFAULT_CATEGORIES
    | Some c => c
    end in
  {| categories := match file with Some loaded => loaded | None => categories0 end;
     category_file := file |}.

Definition save_categories (s : session) : session :=
  {| categories := categories s; category_file := Some (categories s) |}.

(** The "Add Category" button of [main]. *)
Definition add_category (new_category : text) (s : session) : session :=
  match new_category with
  | [] => s
  | _ =>
      if has_key new_category (categories s) then s
      else save_categories
             {| categories := categories s ++ [(new_category, [])];
                category_file := category_file s |}
  end.

Definition extract_keyword (details : text) : text :=
  clean_transaction_details details.

(** [add_keyword_to_category]: the new session and what the call returns or
    raises.  [keyword and ...] does not look the category up when the
    keyword is empty. *)
Definition add_keyword_to_category (category details : text) (s : session)
  : session * result bool :=
  let keyword := upper (strip (extract_keyword details)) in
  match keyword with
  | [] => (s, Ok false)
  | _ :: _ =>
      match getitem category (categories s) with
      | Raise e => (s, Raise e)
      | Ok keywords =>
          if mem keyword keywords then (s, Ok false)
          else
            (save_categories
               {| categories := append_at category keyword (categories s);
                  category_file := category_file s |},
             Ok true)
      end
  end.

(** ** The transaction table and the categoriser *)

Inductive direction : Type := Debit | Credit.

Record date : Type := { day : nat; month : nat; year : nat }.

(** The four required columns of one row. *)
Record entry : Type := {
  Date : date;
  Details : text;
  Amount : Q;
  Direction : direction
}.

(** A row once the [Category] column exists. *)
Record transaction : Type := {
  fields : entry;
  Category : text
}.

Definition table := list transaction.

(** [any(keyword.upper() in cleaned_details for keyword in keywords)] *)
Definition keyword_hit (keywords : list text) (cleaned_details : text) : bool :=
  existsb (fun keyword => contains cleaned_details (upper keyword)) keywords.

(** [df.at[idx, "Category"] = category] *)
Fixpoint set_category (idx : nat) (category : text) (df : table) : table :=
  match df, idx with
  | [], _ => []
  | row :: rest, 0 => {| fields := fields row; Category := category |} :: rest
  | row :: rest, S i => row :: set_category i category rest
  end.

(** One turn of the inner loop, for the row at [idx]. *)
Definition visit_row (category : text) (keywords : list text) (df : table)
  (idx : nat) : table :=
  match nth_error df idx with
  | Some row =>
      if keyword_hit keywords (clean_transaction_details (Details (fields row)))
      then set_category idx category df
      else df
  | None => df
  end.

(** The inner loop, [for idx, row in df.iterrows()]. *)
Definition scan_rows (category : text) (keywords : list text) (df : table)
  : table :=
  fold_left (visit_row category keywords) (seq 0 (length df)) df.

Definition is_empty (keywords : list text) : bool :=
  match keywords with [] => true | _ => false end.

(** One turn of the outer loop, with its [continue]. *)
Definition visit_category (df : table) (item : text * list text) : table :=
  let (category, keywords) := item in
  if text_eqb category Uncategorized || is_empty keywords then df
  else scan_rows category keywords df.

Definition categorize_transactions (cats : store) (df : list entry) : table :=
  fold_left visit_category cats
    (map (fun e => {| fields := e; Category := Uncategorized |}) df).

(** ** The transaction loader *)

(** A data frame as [pd.read_csv] returns it: the columns in file order,
    each with its cells as text. *)
Definition frame := list (text * list text).

Definition column_names (df : frame) : list text := map fst df.

(** [df[name]] *)
Fixpoint column (name : text) (df : frame) : result (list text) :=
  match df with
  | [] => Raise (KeyError name)
  | (c, cells) :: rest => if text_eqb c name then Ok cells else column name rest
  end.

(** [df.columns = [col.strip() for col in df.columns]] *)
Definition strip_names (df : frame) : frame :=
  map (fun cv => (strip (fst cv), snd cv)) df.

(** [df[[name1, name2, ...]]]: the columns asked for, in that order, or the
    [KeyError] of pandas that lists the names that are missing (at least
    one name is found wherever the program uses it). *)
Definition select (names : list text) (df : frame) : result frame :=
  match filter (fun name => negb (mem name (column_names df))) names with
  | [] => mapM (fun name => cells <- column name df ;; Ok (name, cells)) names
  | missing => Raise (NotInIndex missing)
  end.

(** [df.rename(columns={old: new})] *)
Definition rename (old new : text) (df : frame) : frame :=
  map (fun cv => (if text_eqb (fst cv) old then new else fst cv, snd cv)) df.

(** [x > y] *)
Definition Qgt_bool (x y : Q) : bool := negb (Qle_bool x y).

(** [lambda x: "Credit" if x > 0 else "Debit"] *)
Definition direction_of (x : Q) : direction :=
  if Qgt_bool x 0 then Credit else Debit.

Definition required_columns : list text :=
  [str "Date"; str "Details"; str "Amount"; str "Debit/Credit"].

Definition missing_columns_message : text :=
  str "Missing required columns. File must contain: ['Date', 'Details', 'Amount', 'Debit/Credit']".

(** The rows of a frame whose four required columns are given. *)
Fixpoint rows (dates : list date) (details : list text) (amounts : list Q)
  (directions : list direction) : list entry :=
  match dates, details, amounts, directions with
  | d :: ds, t :: ts, a :: az, o :: os =>
      {| Date := d; Details := t; Amount := a; Direction := o |}
      :: rows ds ts az os
  | _, _, _, _ => []
  end.

Definition direction_eqb (a b : direction) : bool :=
  match a, b with
  | Debit, Debit | Credit, Credit => true
  | _, _ => false
  end.

(** What one upload leaves in [st.session_state]. *)
Record app_state : Type := {
  app_session : session;
  debits_df : option table
}.

(** What [st.error(f"Error processing file: {str(e)}")] shows. *)
Definition error_shown (e : exn) : list text :=
  [str "Error processing file: " ++ exn_str e].

Section Loader.

(** The parsers of pandas, which the program calls and does not define:
    [pd.read_csv(file, skipinitialspace=True)], the conversion of one cell
    by [astype(float)] and by [pd.to_datetime(_, format="%d/%m/%Y")].
    The loader is embedded for files in which every Amount cell holds a
    number and every Details cell holds text.  pandas reads an empty cell
    as NaN: in the Amount column that is an amount which is neither
    positive nor negative (line 90 labels it Debit), in the Details column
    it makes [row["Details"].upper()] raise [AttributeError], which the
    [try] of the loader catches like every other exception. *)
Variable File : Type.
Variable read_csv : File -> result frame.
Variable to_float : text -> result Q.
Variable to_datetime : text -> result date.

(** Lines 83-86. *)
Definition barclays (df : frame) : result frame :=
  if mem (str "Subcategory") (column_names df)
     && mem (str "Memo") (column_names df)
  then
    df1 <- select [str "Date"; str "Amount"; str "Memo"] df ;;
    Ok (rename (str "Memo") (str "Details") df1)
  else Ok df.

(** The column names once [df["Debit/Credit"]] is assigned. *)
Definition with_direction (names : list text) : list text :=
  if mem (str "Debit/Credit") names then names
  else names ++ [str "Debit/Credit"].

(** The body of the [try] of [load_transactions]. *)
Definition load_body (cats : store) (file : File) : result table :=
  df <- read_csv file ;;
  let df := strip_names df in
  df <- barclays df ;;
  amount_cells <- column (str "Amount") df ;;
  amounts <- mapM to_float amount_cells ;;
  date_cells <- column (str "Date") df ;;
  dates <- mapM to_datetime date_cells ;;
  let directions := map direction_of amounts in
  let names := with_direction (column_names df) in
  if negb (forallb (fun col => mem col names) required_columns)
  then Raise (ValueError missing_columns_message)
  else
    details <- column (str "Details") df ;;
    Ok (categorize_transactions cats (rows dates details amounts directions)).

(** [load_transactions]: the table or [None], and what [st.error] shows. *)
Definition load_transactions (cats : store) (file : File)
  : option table * list text :=
  match load_body cats file with
  | Ok df => (Some df, [])
  | Raise e => (None, error_shown e)
  end.

(** The ways the body of the loader fails, one per step: the CSV does not
    parse; a Barclays export lacks the Date or Amount column; the Amount
    column is missing or holds a cell that is not a number; the Date column
    is missing or holds a cell that is not a date; the Details column is
    missing. *)
Inductive load_failure (file : File) : exn -> Prop :=
| malformed_csv e :
    read_csv file = Raise e -> load_failure file e
| missing_export_column raw e :
    read_csv file = Ok raw ->
    barclays (strip_names raw) = Raise e ->
    load_failure file e
| missing_amount raw df :
    read_csv file = Ok raw ->
    barclays (strip_names raw) = Ok df ->
    mem (str "Amount") (column_names df) = false ->
    load_failure file (KeyError (str "Amount"))
| bad_amount raw df cells e :
    read_csv file = Ok raw ->
    barclays (strip_names raw) = Ok df ->
    column (str "Amount") df = Ok cells ->
    mapM to_float cells = Raise e ->
    load_failure file e
| missing_date raw df cells amounts :
    read_csv file = Ok raw ->
    barclays (strip_names raw) = Ok df ->
    column (str "Amount") df = Ok cells ->
    mapM to_float cells = Ok amounts ->
    mem (str "Date") (column_names df) = false ->
    load_failure file (KeyError (str "Date"))
| bad_date raw df cells amounts date_cells e :
    read_csv file = Ok raw ->
    barclays (strip_names raw) = Ok df ->
    column (str "Amount") df = Ok cells ->
    mapM to_float cells = Ok amounts ->
    column (str "Date") df = Ok date_cells ->
    mapM to_datetime date_cells = Raise e ->
    load_failure file e
| missing_details raw df cells amounts date_cells dates :
    read_csv file = Ok raw ->
    barclays (strip_names raw) = Ok df ->
    column (str "Amount") df = Ok cells ->
    mapM to_float cells = Ok amounts ->
    column (str "Date") df = Ok date_cells ->
    mapM to_datetime date_cells = Ok dates ->
    mem (str "Details") (column_names df) = false ->
    load_failure file (ValueError missing_columns_message).

(** The upload branch of [main]: [debits_df] is assigned only under
    [if df is not None]. *)
Definition main_upload (file : File) (app : app_state)
  : app_state * list text :=
  match load_transactions (categories (app_session app)) file with
  | (Some df, shown) =>
      ({| app_session := app_session app;
          debits_df :=
            Some (filter (fun row => direction_eqb (Direction (fields row)) Debit) df) |},
       shown)
  | (None, shown) => (app, shown)
  end.

End Loader.

(** ** Savings projections, the savings goal and the budget *)

(** The outcome of a float division: a zero denominator raises
    [ZeroDivisionError] on Python floats and gives [inf] or [nan], with a
    warning, on the [float64] scalars of numpy. *)
Inductive quotient : Type :=
| Finite (q : Q)
| DivisionByZero.

Definition divide (a b : Q) : quotient :=
  if Qeq_bool b 0 then DivisionByZero else Finite (a / b).

Definition Qsum (l : list Q) : Q := fold_right Qplus 0%Q l.

Definition same_month (a b : date) : bool :=
  (year a =? year b) && (month a =? month b).

(** The months of a table, each once, in order of first appearance. *)
Fixpoint months (seen : list date) (df : table) : list date :=
  match df with
  | [] => []
  | row :: rest =>
      let d := Date (fields row) in
      if existsb (same_month d) seen then months seen rest
      else d :: months (d :: seen) rest
  end.

(** [df.groupby([year, month])["Amount"].sum()] *)
Definition monthly_net (df : table) : list Q :=
  map (fun m =>
         Qsum (map (fun row => Amount (fields row))
                 (filter (fun row => same_month (Date (fields row)) m) df)))
      (months [] df).

Fixpoint project (n : nat) (current avg : Q) : list Q :=
  match n with
  | 0 => []
  | S k => (current + avg)%Q :: project k (current + avg)%Q avg
  end.

(** [calculate_savings_projections], for a table with at least one row (the
    mean of no month at all is [nan]). *)
Definition calculate_savings_projections (df : table) : list Q :=
  let net := monthly_net df in
  let avg_monthly_net := (Qsum net / inject_Z (Z.of_nat (length net)))%Q in
  let current_savings := Qsum net in
  current_savings :: project 12 current_savings avg_monthly_net.

(** Lines 293-298 of [main]: [None] when the block is skipped, else the
    value of [months_to_goal]. *)
Definition savings_goal (goal_amount : Q) (projections : list Q)
  : option quotient :=
  if Qgt_bool goal_amount 0 then
    let current_savings := last projections 0%Q in
    let avg_monthly_net := (last projections 0%Q / 12)%Q in
    Some (divide (goal_amount - current_savings)%Q avg_monthly_net)
  else None.

(** The [progress] of [track_budget_vs_actual], with its guard. *)
Definition budget_progress (actual_spending budget_limit : Q) : quotient :=
  if Qgt_bool budget_limit 0 then divide actual_spending budget_limit
  else Finite 0%Q.

(** ** Auxiliary definitions of the properties *)

(** [subseq a b]: [a] is [b] with some elements left out, in the order of
    [b]. *)
Inductive subseq {A : Type} : list A -> list A -> Prop :=
| subseq_nil : subseq [] []
| subseq_take x a b : subseq a b -> subseq (x :: a) (x :: b)
| subseq_skip x a b : subseq a b -> subseq a (x :: b).

(** A word as [split] returns them: not empty, without white space. *)
Definition word_ok (w : text) : Prop :=
  w <> [] /\ Forall (fun c => is_space c = false) w.

(** The loop over the codes, turn by turn: [strips_in_turn codes d r] when
    testing the codes in order, each against the end of the string as it
    then stands, and stripping every one that matches, takes [d] to [r]. *)
Inductive strips_in_turn : list text -> text -> text -> Prop :=
| turn_end d : strips_in_turn [] d d
| turn_strip suffix rest d stem r :
    d = stem ++ suffix ->
    strips_in_turn rest stem r ->
    strips_in_turn (suffix :: rest) d r
| turn_keep suffix rest d r :
    endswith d suffix = false ->
    strips_in_turn rest d r ->
    strips_in_turn (suffix :: rest) d r.

(** [s] does not start with white space. *)
Definition head_ok (s : text) : Prop :=
  match s with
  | [] => True
  | c :: _ => is_space c = false
  end.

(** [s] ends with one of the seven codes. *)
Definition ends_with_code (s : text) : bool :=
  existsb (endswith s) suffixes_to_remove.

(** The date pattern matches somewhere in [s]. *)
Fixpoint has_date (s : text) : bool :=
  match match_date s with
  | Some _ => true
  | None =>
      match s with
      | [] => false
      | _ :: t => has_date t
      end
  end.

(** What the inner loop does to one row. *)
Definition relabel (category : text) (keywords : list text)
  (row : transaction) : transaction :=
  if keyword_hit keywords (clean_transaction_details (Details (fields row)))
  then {| fields := fields row; Category := category |}
  else row.

(** An item of the store is tested against a row when it is not
    "Uncategorized" and has keywords; it matches when a keyword occurs. *)
Definition skipped (item : text * list text) : bool :=
  text_eqb (fst item) Uncategorized || is_empty (snd item).

Definition matches (item : text * list text) (details : text) : bool :=
  negb (skipped item)
  && keyword_hit (snd item) (clean_transaction_details details).

(** The category one row ends with, from the category it starts with. *)
Definition assign (cats : store) (start details : text) : text :=
  fold_left (fun current item =>
               if matches item details then fst item else current)
            cats start.

(** The tie-break in the words of the specification: the first category of
    the store, in iteration order, that matches. *)
Fixpoint first_matching_category (cats : store) (details : text) : text :=
  match cats with
  | [] => Uncategorized
  | item :: rest =>
      if matches item details then fst item
      else first_matching_category rest details
  end.

Definition entry_of (details : string) : entry :=
  {| Date := {| day := 15; month := 3; year := 2024 |};
     Details := str details;
     Amount := (-5)%Q;
     Direction := Debit |}.

Definition store_AB : store :=
  [(str "A", [str "FOO"]); (str "B", [str "FOOBAR"])].

(** The sessions the program itself can produce, from a first run with no
    [categories.json] on disk: script reruns, new browser sessions, and the
    two operations that write the store. *)
Inductive reachable : session -> Prop :=
| reach_first_run : reachable (init_session None None)
| reach_rerun s :
    reachable s ->
    reachable (init_session (Some (categories s)) (category_file s))
| reach_new_session s :
    reachable s -> reachable (init_session None (category_file s))
| reach_add_category s name :
    reachable s -> reachable (add_category name s)
| reach_add_keyword s category details :
    reachable s ->
    reachable (fst (add_keyword_to_category category details s))
| reach_save s : reachable s -> reachable (save_categories s).



(** Stand-ins for the parsers of pandas on a handful of cells, to run the
    loader on examples. *)
Definition sample_read_csv (file : frame) : result frame :=
  match file with
  | [] => Raise (ParserError (str "No columns to parse from file"))
  | _ => Ok file
  end.

Definition sample_to_float (cell : text) : result Q :=
  if text_eqb cell (str "-23.50") then Ok (-47 # 2)%Q
  else if text_eqb cell (str "0") then Ok 0%Q
  else if text_eqb cell (str "1200.00") then Ok 1200%Q
  else Raise (ValueError (str "could not convert string to float: " ++ cell)).

Definition sample_to_datetime (cell : text) : result date :=
  if text_eqb cell (str "15/03/2024")
  then Ok {| day := 15; month := 3; year := 2024 |}
  else if text_eqb cell (str "28/03/2024")
  then Ok {| day := 28; month := 3; year := 2024 |}
  else Raise (ValueError (str "time data doesn't match format %d/%m/%Y: " ++ cell)).

Definition sample_file : frame :=
  [ (str "Date", [str "15/03/2024"; str "28/03/2024"; str "28/03/2024"]);
    (str " Details", [str "TESCO STORES 1234 CLP"; str "ARCADIA EXPR          SALARY";
                     str "CARD CHECK"]);
    (str "Amount ", [str "-23.50"; str "1200.00"; str "0"]) ].

Definition sample_bad_amount : frame :=
  [ (str "Date", [str "15/03/2024"]);
    (str "Details", [str "TESCO"]);
    (str "Amount", [str "twelve"]) ].

Definition sample_app : app_state :=
  {| app_session := init_session None None;
     debits_df := Some (categorize_transactions DEFAULT_CATEGORIES
                          [entry_of "TESCO STORES"]) |}.

(** A month whose income and expenses cancel. *)
Definition balanced_month : list entry :=
  [ {| Date := {| day := 1; month := 3; year := 2024 |};
       Details := str "ARCADIA EXPR          SALARY";
       Amount := 100%Q; Direction := Credit |};
    {| Date := {| day := 9; month := 3; year := 2024 |};
       Details := str "RENT STO";
       Amount := (-100)%Q; Direction := Debit |} ].

(** The shape the program keeps the store in: category names are unique,
    and no keyword list holds a keyword twice or holds the empty keyword. *)
Definition store_ok (m : store) : Prop :=
  NoDup (map fst m)
  /\ Forall (fun kv => NoDup (snd kv) /\ ~ In [] (snd kv)) m.

(** The store and the file are both in that shape. *)
Definition session_ok (s : session) : Prop :=
  store_ok (categories s)
  /\ forall m, category_file s = Some m -> store_ok m.

(** No two white-space characters stand side by side in [s]. *)
Fixpoint single_spaced (s : text) : bool :=
  match s with
  | c1 :: t =>
      match t with
      | c2 :: _ => negb (is_space c1 && is_space c2) && single_spaced t
      | [] => true
      end
  | [] => true
  end.

(** The two views of [main] and the totals of its income tab. *)
Definition debits_of (df : table) : table :=
  filter (fun row => direction_eqb (Direction (fields row)) Debit) df.

Definition credits_of (df : table) : table :=
  filter (fun row => direction_eqb (Direction (fields row)) Credit) df.

(** [df["Amount"].sum()] *)
Definition total (df : table) : Q :=
  Qsum (map (fun row => Amount (fields row)) df).

(** [net = total_credits + total_debits] *)
Definition net_position (df : table) : Q :=
  (total (credits_of df) + total (debits_of df))%Q.

(** A Barclays export of one row, and the same row in the plain format. *)
Definition sample_barclays : frame :=
  [ (str "Number", [str "1"]);
    (str "Date", [str "15/03/2024"]);
    (str "Account", [str "20-00-00 12345678"]);
    (str "Amount", [str "-23.50"]);
    (str "Subcategory", [str "Debit"]);
    (str "Memo", [str "TESCO STORES 1234 CLP"]) ].

Definition sample_plain : frame :=
  [ (str "Date", [str "15/03/2024"]);
    (str "Amount", [str "-23.50"]);
    (str "Details", [str "TESCO STORES 1234 CLP"]) ].

(** [abs(df[df['Category'] == category]['Amount'].sum())] *)
Definition actual_spending (df : table) (category : text) : Q :=
  Qabs (total (filter (fun row => text_eqb (Category row) category) df)).

(** What [st.progress(min(progress, 1.0))] is called with. *)
Definition progress_shown (actual budget_limit : Q) : quotient :=
  match budget_progress actual budget_limit with
  | Finite progress => Finite (Qmin progress 1)
  | DivisionByZero => DivisionByZero
  end.


(** The loop of "Apply Changes" in [main], from row [idx] on: for each row
    of the edited table whose category differs from the one in
    [debits_df], the category is written to [debits_df] and the row's
    details are added as a keyword.  The edited table has the index of
    [debits_df], so that rows correspond by position.  The result is the
    session, [debits_df], and the exception that stopped the loop, if
    any. *)
Fixpoint apply_changes_from (idx : nat) (edited : table) (s : session)
  (debits : table) : session * table * option exn :=
  match edited with
  | [] => (s, debits, None)
  | row :: rest =>
      match nth_error debits idx with
      | None => (s, debits, Some (KeyError []))
      | Some old =>
          if text_eqb (Category row) (Category old)
          then apply_changes_from (S idx) rest s debits
          else
            let debits1 := set_category idx (Category row) debits in
            match add_keyword_to_category (Category row)
                    (Details (fields row)) s with
            | (s1, Ok _) => apply_changes_from (S idx) rest s1 debits1
            | (s1, Raise e) => (s1, debits1, Some e)
            end
      end
  end.

(** The whole handler: the loop, then [save_categories()]. *)
Definition apply_changes (edited : table) (s : session) (debits : table)
  : session * table * option exn :=
  match apply_changes_from 0 edited s debits with
  | (s1, debits1, None) => (save_categories s1, debits1, None)
  | stopped => stopped
  end.

(** [b] is [a] with keywords appended to some of its lists. *)
Definition store_grows (a b : store) : Prop :=
  Forall2 (fun x y => fst x = fst y /\ exists added, snd y = snd x ++ added)
          a b.

Definition sample_no_amount : frame :=
  [ (str "Date", [str "15/03/2024"]); (str "Details", [str "TESCO"]) ].

(** A persisted store in which a keyword list holds a keyword twice. *)
Definition store_with_duplicate : store :=
  [(Uncategorized, []); (str "Shopping", [str "ETSY"; str "ETSY"])].

(** * Properties *)

(** ** The normaliser on examples *)

Example clean_ex1 :
  clean_transaction_details (str "Tesco Stores DDR") = str "TESCO STORES".
Proof. vm_compute. reflexivity. Qed.

Example clean_ex2 :
  clean_transaction_details (str "PAYMENT ON 05 JAN REF123") = str "PAYMENT REF123".
Proof. vm_compute. reflexivity. Qed.

Example clean_ex3 :
  clean_transaction_details (str "  tesco   ddr cpm ") = str "TESCO".
Proof. vm_compute. reflexivity. Qed.

Example clean_ex4 :
  clean_transaction_details (str "TESCO CPM DDR") = str "TESCO CPM".
Proof. vm_compute. reflexivity. Qed.

(** ** Equality of texts *)

Lemma text_eqb_eq (a b : text) : text_eqb a b = true <-> a = b.
Proof.
  unfold text_eqb. destruct (text_dec a b); split; congruence.
Qed.

Lemma text_eqb_refl (a : text) : text_eqb a a = true.
Proof. now apply text_eqb_eq. Qed.

Lemma text_eqb_neq (a b : text) : text_eqb a b = false <-> a <> b.
Proof.
  unfold text_eqb. destruct (text_dec a b); split; congruence.
Qed.

Lemma mem_In (k : text) (l : list text) : mem k l = true <-> In k l.
Proof.
  unfold mem. rewrite existsb_exists. split.
  - intros [x [Hin Heq]]. apply text_eqb_eq in Heq. now subst.
  - intros Hin. exists k. split; [assumption | apply text_eqb_refl].
Qed.

(** ** The categoriser, row by row *)

Lemma set_category_middle (pre post : table) (row : transaction) (c : text) :
  set_category (length pre) c (pre ++ row :: post)
  = pre ++ {| fields := fields row; Category := c |} :: post.
Proof.
  induction pre as [|r pre IH]; simpl; [reflexivity | now rewrite IH].
Qed.

Lemma visit_row_middle c kws (pre post : table) (row : transaction) :
  visit_row c kws (pre ++ row :: post) (length pre)
  = pre ++ relabel c kws row :: post.
Proof.
  unfold visit_row, relabel.
  rewrite nth_error_app2 by lia. rewrite Nat.sub_diag. simpl.
  destruct (keyword_hit kws _); [apply set_category_middle | reflexivity].
Qed.

Lemma scan_rows_from c kws (post pre : table) :
  fold_left (visit_row c kws) (seq (length pre) (length post)) (pre ++ post)
  = pre ++ map (relabel c kws) post.
Proof.
  revert pre. induction post as [|row post IH]; intros pre; simpl.
  - reflexivity.
  - rewrite visit_row_middle.
    replace (pre ++ relabel c kws row :: post)
      with ((pre ++ [relabel c kws row]) ++ post)
      by (rewrite <- app_assoc; reflexivity).
    replace (S (length pre)) with (length (pre ++ [relabel c kws row]))
      by (rewrite length_app; simpl; lia).
    rewrite IH. rewrite <- app_assoc. reflexivity.
Qed.

Lemma scan_rows_map c kws (df : table) :
  scan_rows c kws df = map (relabel c kws) df.
Proof. exact (scan_rows_from c kws df []). Qed.

Lemma visit_category_map (df : table) (item : text * list text) :
  visit_category df item
  = map (fun row =>
           {| fields := fields row;
              Category := if matches item (Details (fields row))
                          then fst item else Category row |}) df.
Proof.
  destruct item as [c kws]. unfold visit_category, matches, skipped. simpl.
  destruct (text_eqb c Uncategorized || is_empty kws); simpl.
  - rewrite <- (map_id df) at 1. apply map_ext. now intros [f k].
  - rewrite scan_rows_map. apply map_ext. intros [f k]. unfold relabel. simpl.
    now destruct (keyword_hit kws _).
Qed.

Lemma fold_visit_category (cats : store) (df : table) :
  fold_left visit_category cats df
  = map (fun row =>
           {| fields := fields row;
              Category := assign cats (Category row) (Details (fields row)) |})
        df.
Proof.
  revert df. induction cats as [|item cats IH]; intros df; simpl.
  - rewrite <- (map_id df) at 1. apply map_ext. now intros [f k].
  - rewrite IH, visit_category_map, map_map. apply map_ext. intros [f k].
    reflexivity.
Qed.

Lemma categorize_transactions_map (cats : store) (df : list entry) :
  categorize_transactions cats df
  = map (fun e => {| fields := e;
                     Category := assign cats Uncategorized (Details e) |}) df.
Proof.
  unfold categorize_transactions. rewrite fold_visit_category, map_map.
  reflexivity.
Qed.

Lemma assign_app (a b : store) (start details : text) :
  assign (a ++ b) start details = assign b (assign a start details) details.
Proof. unfold assign. apply fold_left_app. Qed.

Lemma assign_no_match (cats : store) (start details : text) :
  (forall item, In item cats -> matches item details = false) ->
  assign cats start details = start.
Proof.
  revert start. induction cats as [|item cats IH]; intros start H; simpl.
  - reflexivity.
  - unfold assign in *. simpl. rewrite (H item) by now left.
    apply IH. intros i Hi. apply H. now right.
Qed.

Lemma assign_last_match (before after : store) (item : text * list text)
  (start details : text) :
  matches item details = true ->
  (forall later, In later after -> matches later details = false) ->
  assign (before ++ item :: after) start details = fst item.
Proof.
  intros Hm Hafter. rewrite assign_app.
  change (item :: after) with ([item] ++ after). rewrite assign_app.
  rewrite (assign_no_match after) by assumption.
  unfold assign. simpl. now rewrite Hm.
Qed.


(** ** Which category wins *)

(** C1, counterexample: with the store [A: FOO, B: FOOBAR] a transaction
    "FOOBAR" matches both categories; the categoriser leaves it in B, the
    later one, where the first matching category is A. *)
Lemma first_match_wins_counterexample :
  map Category (categorize_transactions store_AB [entry_of "FOOBAR"])
  = [str "B"]
  /\ map (fun e => first_matching_category store_AB (Details e))
       [entry_of "FOOBAR"]
     = [str "A"].
Proof. split; vm_compute; reflexivity. Qed.

(** C1, as the code has it: every category of the store is tested against
    every row, whatever an earlier category assigned, and a match
    overwrites; so a row ends in the LAST category, in store order, that
    matches it. *)
Theorem categorize_last_match_wins
  (before after : store) (item : text * list text) (df : list entry)
  (idx : nat) (e : entry) :
  nth_error df idx = Some e ->
  matches item (Details e) = true ->
  (forall later, In later after -> matches later (Details e) = false) ->
  nth_error (categorize_transactions (before ++ item :: after) df) idx
  = Some {| fields := e; Category := fst item |}.
Proof.
  intros Hrow Hm Hafter.
  rewrite categorize_transactions_map, nth_error_map, Hrow. simpl.
  now rewrite assign_last_match.
Qed.

Lemma categorize_last_match_wins_witness :
  nth_error
    (categorize_transactions
       ([(str "A", [str "FOO"])] ++ (str "B", [str "FOOBAR"])
          :: [(str "C", [str "QUUX"])])
       [entry_of "TESCO"; entry_of "foobar cpm"]) 1
  = Some {| fields := entry_of "foobar cpm"; Category := str "B" |}.
Proof.
  apply (categorize_last_match_wins
           [(str "A", [str "FOO"])] [(str "C", [str "QUUX"])]
           (str "B", [str "FOOBAR"])
           [entry_of "TESCO"; entry_of "foobar cpm"] 1
           (entry_of "foobar cpm")).
  - reflexivity.
  - vm_compute. reflexivity.
  - intros later [<- | []]. vm_compute. reflexivity.
Defined.

(** A row no category matches stays "Uncategorized". *)
Lemma categorize_default (cats : store) (df : list entry) (idx : nat)
  (e : entry) :
  nth_error df idx = Some e ->
  (forall item, In item cats -> matches item (Details e) = false) ->
  nth_error (categorize_transactions cats df) idx
  = Some {| fields := e; Category := Uncategorized |}.
Proof.
  intros Hrow Hnone.
  rewrite categorize_transactions_map, nth_error_map, Hrow. simpl.
  now rewrite assign_no_match.
Qed.

(** ** The frame of the categoriser *)

Lemma categorize_fields (cats : store) (df : list entry) :
  map fields (categorize_transactions cats df) = df.
Proof.
  rewrite categorize_transactions_map, map_map. simpl. apply map_id.
Qed.

(** C10: the categoriser writes the Category column and nothing else: the
    table has as many rows as before, in the same order, each with its
    Date, Details, Amount and Debit/Credit fields as they were. *)
Theorem categorize_changes_only_category (cats : store) (df : list entry) :
  length (categorize_transactions cats df) = length df
  /\ map fields (categorize_transactions cats df) = df
  /\ forall idx : nat,
       nth_error (map fields (categorize_transactions cats df)) idx
       = nth_error df idx.
Proof.
  assert (H : map fields (categorize_transactions cats df) = df).
  { rewrite categorize_transactions_map, map_map. simpl. apply map_id. }
  repeat split.
  - rewrite <- H at 2. now rewrite length_map.
  - exact H.
  - intros idx. now rewrite H.
Qed.

(** ** "Uncategorized" and the keys of the store *)

Lemma has_key_app (key : text) (a b : store) :
  has_key key (a ++ b) = has_key key a || has_key key b.
Proof. unfold has_key. apply existsb_app. Qed.







(** ** Adding a keyword *)

Lemma getitem_absent (key : text) (m : store) :
  has_key key m = false -> getitem key m = Raise (KeyError key).
Proof.
  induction m as [|[k v] m IH]; simpl; [reflexivity|].
  unfold has_key. simpl. intros H. apply orb_false_iff in H.
  destruct H as [Hk Hm]. rewrite Hk. now apply IH.
Qed.

Lemma getitem_append_at (key keyword : text) (m : store) (kws : list text) :
  getitem key m = Ok kws ->
  getitem key (append_at key keyword m) = Ok (kws ++ [keyword]).
Proof.
  induction m as [|[k v] m IH]; simpl; [discriminate|].
  destruct (text_eqb k key) eqn:E; simpl; rewrite E.
  - now intros [= ->].
  - exact IH.
Qed.

(** C3, counterexample: "Pets" is not a category of the default store, and
    adding the keyword of "VET BILL" to it raises [KeyError] where the
    claim has the call return false. *)
Lemma add_keyword_unknown_category_counterexample :
  has_key (str "Pets") (categories (init_session None None)) = false
  /\ snd (add_keyword_to_category (str "Pets") (str "VET BILL")
            (init_session None None))
     = Raise (KeyError (str "Pets")).
Proof. split; vm_compute; reflexivity. Qed.

(** C3, as the code has it: for a category that is not in the store the
    call leaves the session as it was; it returns [False] when the
    normalised keyword is empty, and otherwise the lookup of the category
    raises [KeyError], which [add_keyword_to_category] does not catch. *)
Theorem add_keyword_unknown_category (s : session) (category details : text) :
  has_key category (categories s) = false ->
  fst (add_keyword_to_category category details s) = s
  /\ snd (add_keyword_to_category category details s)
     = match upper (strip (extract_keyword details)) with
       | [] => Ok false
       | _ :: _ => Raise (KeyError category)
       end.
Proof.
  intros H. unfold add_keyword_to_category.
  destruct (upper (strip (extract_keyword details))) as [|c kw].
  - split; reflexivity.
  - rewrite (getitem_absent _ _ H). split; reflexivity.
Qed.

Lemma add_keyword_unknown_category_witness :
  fst (add_keyword_to_category (str "Pets") (str "vet bill ddr")
         (init_session None None))
  = init_session None None
  /\ snd (add_keyword_to_category (str "Pets") (str "vet bill ddr")
            (init_session None None))
     = match upper (strip (extract_keyword (str "vet bill ddr"))) with
       | [] => Ok false
       | _ :: _ => Raise (KeyError (str "Pets"))
       end.
Proof.
  apply (add_keyword_unknown_category (init_session None None)
           (str "Pets") (str "vet bill ddr")).
  vm_compute. reflexivity.
Defined.

(** C9, counterexample: [categories.json] is loaded as it is; when the
    list of Shopping holds "ETSY" twice, two calls with the details "etsy"
    both return [False] and leave the keyword in the list twice, not
    exactly once. *)
Lemma add_keyword_idempotent_counterexample :
  let s := init_session None (Some store_with_duplicate) in
  let s1 := fst (add_keyword_to_category (str "Shopping") (str "etsy") s) in
  let s2 := fst (add_keyword_to_category (str "Shopping") (str "etsy") s1) in
  upper (strip (extract_keyword (str "etsy"))) = str "ETSY"
  /\ getitem (str "Shopping") (categories s2)
     = Ok [str "ETSY"; str "ETSY"]
  /\ count_occ text_dec [str "ETSY"; str "ETSY"] (str "ETSY") = 2.
Proof. repeat split; vm_compute; reflexivity. Qed.

(** C9, as the code has it: on an existing category a second call with the
    same details changes nothing and returns [False]; after the calls the
    normalised keyword stands in the category's list once if it stood there
    at most once before, and otherwise as often as before (the code appends
    when the keyword is absent and never removes); and when the normalised
    keyword is empty neither call changes anything. *)
Theorem add_keyword_idempotent (s : session) (category details : text)
  (kws : list text) :
  getitem category (categories s) = Ok kws ->
  let keyword := upper (strip (extract_keyword details)) in
  let s1 := fst (add_keyword_to_category category details s) in
  let s2 := fst (add_keyword_to_category category details s1) in
  s2 = s1
  /\ snd (add_keyword_to_category category details s1) = Ok false
  /\ (keyword <> [] ->
      exists kws1,
        getitem category (categories s1) = Ok kws1
        /\ count_occ text_dec kws1 keyword
           = Nat.max 1 (count_occ text_dec kws keyword)
        /\ (count_occ text_dec kws keyword <= 1 ->
            count_occ text_dec kws1 keyword = 1)
        /\ (NoDup kws -> count_occ text_dec kws1 keyword = 1))
  /\ (keyword = [] ->
      s1 = s /\ snd (add_keyword_to_category category details s) = Ok false).
Proof.
  intros Hget. unfold add_keyword_to_category. cbv zeta.
  destruct (upper (strip (extract_keyword details))) as [|c kw] eqn:Ekw.
  - simpl. repeat split; congruence.
  - rewrite Hget.
    assert (Hfin : forall kws1,
               count_occ text_dec kws1 (c :: kw)
               = Nat.max 1 (count_occ text_dec kws (c :: kw)) ->
               count_occ text_dec kws1 (c :: kw)
               = Nat.max 1 (count_occ text_dec kws (c :: kw))
               /\ (count_occ text_dec kws (c :: kw) <= 1 ->
                   count_occ text_dec kws1 (c :: kw) = 1)
               /\ (NoDup kws -> count_occ text_dec kws1 (c :: kw) = 1)).
    { intros kws1 H. split; [exact H|]. split; [lia|].
      intros Hnd. rewrite (NoDup_count_occ text_dec) in Hnd.
      specialize (Hnd (c :: kw)). lia. }
    destruct (mem (c :: kw) kws) eqn:Emem.
    + cbn [fst snd]. rewrite Hget, Emem. cbn [fst snd].
      repeat split; try discriminate.
      intros _. exists kws. split; [reflexivity|]. apply Hfin.
      apply mem_In in Emem.
      apply (count_occ_In text_dec) in Emem. lia.
    + cbn [fst snd]. cbn [categories save_categories].
      rewrite (getitem_append_at _ _ _ _ Hget).
      destruct (mem _ (_ ++ _)) eqn:Hin.
      2:{ exfalso. apply not_true_iff_false in Hin. apply Hin.
          apply mem_In, in_or_app. right. now left. }
      cbn [fst snd]. repeat split; try discriminate.
      intros _. exists (kws ++ [c :: kw]). split; [reflexivity|].
      apply Hfin.
      rewrite count_occ_app. cbn [count_occ].
      destruct (text_dec (c :: kw) (c :: kw)) as [_|N]; [|congruence].
      assert (Hnot : ~ In (c :: kw) kws).
      { intros Hi. apply mem_In in Hi. congruence. }
      apply (count_occ_not_In text_dec) in Hnot. lia.
Qed.

Lemma add_keyword_idempotent_witness :
  let s := init_session None None in
  let kws := [str "AMAZON"; str "NEXT"; str "MARKS"; str "SPENCER";
              str "BOOTS"] in
  let keyword := upper (strip (extract_keyword (str "Etsy Ltd  CPM"))) in
  let s1 := fst (add_keyword_to_category (str "Shopping") (str "Etsy Ltd  CPM") s) in
  let s2 := fst (add_keyword_to_category (str "Shopping") (str "Etsy Ltd  CPM") s1) in
  s2 = s1
  /\ snd (add_keyword_to_category (str "Shopping") (str "Etsy Ltd  CPM") s1)
     = Ok false
  /\ (keyword <> [] ->
      exists kws1,
        getitem (str "Shopping") (categories s1) = Ok kws1
        /\ count_occ text_dec kws1 keyword
           = Nat.max 1 (count_occ text_dec kws keyword)
        /\ (count_occ text_dec kws keyword <= 1 ->
            count_occ text_dec kws1 keyword = 1)
        /\ (NoDup kws -> count_occ text_dec kws1 keyword = 1))
  /\ (keyword = [] ->
      s1 = s
      /\ snd (add_keyword_to_category (str "Shopping") (str "Etsy Ltd  CPM") s)
         = Ok false).
Proof.
  apply (add_keyword_idempotent (init_session None None) (str "Shopping")
           (str "Etsy Ltd  CPM")
           [str "AMAZON"; str "NEXT"; str "MARKS"; str "SPENCER"; str "BOOTS"]).
  vm_compute. reflexivity.
Defined.

(** ** The loader *)

Lemma direction_of_credit (x : Q) :
  direction_of x = Credit <-> (0 < x)%Q.
Proof.
  unfold direction_of, Qgt_bool.
  destruct (Qle_bool x 0) eqn:E; simpl.
  - apply Qle_bool_iff in E. split; [discriminate|].
    intros H. exfalso. exact (Qlt_not_le _ _ H E).
  - split; [intros _ | reflexivity].
    apply Qnot_le_lt. intros H. apply Qle_bool_iff in H. congruence.
Qed.

Lemma direction_of_not_credit (x : Q) :
  direction_of x = Debit <-> ~ (0 < x)%Q.
Proof.
  rewrite <- direction_of_credit.
  destruct (direction_of x); split; congruence.
Qed.

Lemma rows_direction (dates : list date) (details : list text)
  (amounts : list Q) :
  Forall (fun e => Direction e = direction_of (Amount e))
         (rows dates details amounts (map direction_of amounts)).
Proof.
  revert details amounts.
  induction dates as [|d dates IH]; intros [|t details] [|a amounts]; simpl;
    try constructor; [reflexivity | apply IH].
Qed.

Lemma column_absent (name : text) (df : frame) :
  mem name (column_names df) = false -> column name df = Raise (KeyError name).
Proof.
  induction df as [|[c cells] df IH]; simpl; [reflexivity|].
  unfold mem. simpl. intros H. apply orb_false_iff in H.
  destruct H as [H1 H2].
  assert (E : text_eqb c name = false).
  { apply text_eqb_neq. apply text_eqb_neq in H1. congruence. }
  rewrite E. now apply IH.
Qed.

Lemma column_present (name : text) (df : frame) (cells : list text) :
  column name df = Ok cells -> mem name (column_names df) = true.
Proof.
  induction df as [|[c v] df IH]; simpl; [discriminate|].
  unfold mem. simpl. destruct (text_eqb c name) eqn:E.
  - intros _. apply text_eqb_eq in E. subst. now rewrite text_eqb_refl.
  - intros H. apply IH in H. unfold mem in H. rewrite H. apply orb_true_r.
Qed.

Lemma mem_column (name : text) (df : frame) :
  mem name (column_names df) = true -> exists cells, column name df = Ok cells.
Proof.
  induction df as [|[c v] df IH]; [discriminate|].
  unfold mem. simpl. destruct (text_eqb c name) eqn:E.
  - intros _. now exists v.
  - intros H. apply IH. unfold mem.
    assert (F : text_eqb name c = false).
    { apply text_eqb_neq. apply text_eqb_neq in E. congruence. }
    now rewrite F in H.
Qed.

Section LoaderProperties.

Variable File : Type.
Variable read_csv : File -> result frame.
Variable to_float : text -> result Q.
Variable to_datetime : text -> result date.

Let body := load_body File read_csv to_float to_datetime.
Let load := load_transactions File read_csv to_float to_datetime.
Let upload := main_upload File read_csv to_float to_datetime.

(** A table the loader returns is the categorised table of rows whose
    direction column was computed from the amount column. *)
Lemma load_body_rows (cats : store) (file : File) (df : table) :
  body cats file = Ok df ->
  exists dates details amounts,
    df = categorize_transactions cats
           (rows dates details amounts (map direction_of amounts)).
Proof.
  unfold body, load_body, bind.
  destruct (read_csv file) as [raw|]; [|discriminate].
  destruct (barclays (strip_names raw)) as [df0|]; [|discriminate].
  destruct (column (str "Amount") df0) as [acells|]; [|discriminate].
  destruct (mapM to_float acells) as [amounts|]; [|discriminate].
  destruct (column (str "Date") df0) as [dcells|]; [|discriminate].
  destruct (mapM to_datetime dcells) as [dates|]; [|discriminate].
  destruct (negb _); [discriminate|].
  destruct (column (str "Details") df0) as [details|]; [|discriminate].
  intros [= <-]. now exists dates, details, amounts.
Qed.

Lemma load_some (cats : store) (file : File) (df : table)
  (shown : list text) :
  load cats file = (Some df, shown) -> body cats file = Ok df.
Proof.
  unfold load, load_transactions. fold body.
  destruct (body cats file); now intros [= <- _].
Qed.

(** C8: in every table the loader returns, the direction of a row is
    Credit exactly when its amount is strictly positive and Debit
    otherwise; a zero amount is a Debit. *)
Theorem loaded_direction (cats : store) (file : File) (df : table)
  (shown : list text) :
  load cats file = (Some df, shown) ->
  Forall (fun row =>
            (Direction (fields row) = Credit
             <-> (0 < Amount (fields row))%Q)
            /\ (Direction (fields row) = Debit
                <-> ~ (0 < Amount (fields row))%Q)
            /\ ((Amount (fields row) == 0)%Q
                -> Direction (fields row) = Debit))
         df.
Proof.
  intros H. apply load_some, load_body_rows in H.
  destruct H as [dates [details [amounts ->]]].
  apply Forall_forall. intros row Hin.
  assert (Hf : In (fields row)
                 (rows dates details amounts (map direction_of amounts))).
  { rewrite <- (categorize_fields cats
                  (rows dates details amounts (map direction_of amounts))).
    now apply in_map. }
  pose proof (rows_direction dates details amounts) as Hd.
  rewrite Forall_forall in Hd. rewrite (Hd _ Hf).
  split; [apply direction_of_credit|].
  split; [apply direction_of_not_credit|].
  intros Hz. apply direction_of_not_credit. rewrite Hz.
  apply Qlt_irrefl.
Qed.

(** The failures of the loader, one by one, raise inside the [try]. *)
Lemma malformed_csv_raises (cats : store) (file : File) (e : exn) :
  read_csv file = Raise e -> body cats file = Raise e.
Proof. unfold body, load_body, bind. now intros ->. Qed.

Lemma missing_amount_raises (cats : store) (file : File) (raw df : frame)
  (e : exn) :
  read_csv file = Ok raw ->
  barclays (strip_names raw) = Ok df ->
  column (str "Amount") df = Raise e ->
  body cats file = Raise e.
Proof. unfold body, load_body, bind. now intros -> -> ->. Qed.

Lemma bad_amount_raises (cats : store) (file : File) (raw df : frame)
  (cells : list text) (e : exn) :
  read_csv file = Ok raw ->
  barclays (strip_names raw) = Ok df ->
  column (str "Amount") df = Ok cells ->
  mapM to_float cells = Raise e ->
  body cats file = Raise e.
Proof. unfold body, load_body, bind. now intros -> -> -> ->. Qed.

Lemma bad_date_raises (cats : store) (file : File) (raw df : frame)
  (cells : list text) (amounts : list Q) (dcells : list text) (e : exn) :
  read_csv file = Ok raw ->
  barclays (strip_names raw) = Ok df ->
  column (str "Amount") df = Ok cells ->
  mapM to_float cells = Ok amounts ->
  column (str "Date") df = Ok dcells ->
  mapM to_datetime dcells = Raise e ->
  body cats file = Raise e.
Proof. unfold body, load_body, bind. now intros -> -> -> -> -> ->. Qed.

Lemma missing_details_raises (cats : store) (file : File) (raw df : frame)
  (cells : list text) (amounts : list Q) (dcells : list text)
  (dates : list date) :
  read_csv file = Ok raw ->
  barclays (strip_names raw) = Ok df ->
  column (str "Amount") df = Ok cells ->
  mapM to_float cells = Ok amounts ->
  column (str "Date") df = Ok dcells ->
  mapM to_datetime dcells = Ok dates ->
  mem (str "Details") (column_names df) = false ->
  body cats file = Raise (ValueError missing_columns_message).
Proof.
  unfold body, load_body, bind. intros -> -> -> -> -> -> Hd.
  assert (Hw : mem (str "Details") (with_direction (column_names df)) = false).
  { unfold with_direction. destruct (mem (str "Debit/Credit") _); [assumption|].
    apply not_true_iff_false. intros Hin. apply mem_In in Hin.
    apply in_app_or in Hin. destruct Hin as [Hin | [Hin | []]].
    - apply mem_In in Hin. congruence.
    - discriminate Hin. }
  unfold required_columns. cbn [forallb]. rewrite Hw.
  cbn [andb]. rewrite andb_false_r. reflexivity.
Qed.

Lemma load_failure_raises (cats : store) (file : File) (e : exn) :
  load_failure File read_csv to_float to_datetime file e ->
  body cats file = Raise e.
Proof.
  intros H. destruct H.
  - now apply malformed_csv_raises.
  - unfold body, load_body, bind. now rewrite H, H0.
  - eapply missing_amount_raises; eauto. now apply column_absent.
  - eapply bad_amount_raises; eauto.
  - unfold body, load_body, bind. rewrite H, H0, H1, H2.
    now rewrite (column_absent _ _ H3).
  - eapply bad_date_raises; eauto.
  - eapply missing_details_raises; eauto.
Qed.

Lemma raise_is_load_failure (cats : store) (file : File) (e : exn) :
  body cats file = Raise e ->
  load_failure File read_csv to_float to_datetime file e.
Proof.
  unfold body, load_body, bind.
  destruct (read_csv file) as [raw|e0] eqn:Hr;
    [|intros [= <-]; now apply malformed_csv].
  destruct (barclays (strip_names raw)) as [df|e0] eqn:Hb;
    [|intros [= <-]; now apply (missing_export_column _ _ _ _ _ raw)].
  destruct (column (str "Amount") df) as [cells|e0] eqn:Ha.
  2:{ destruct (mem (str "Amount") (column_names df)) eqn:Hm.
      - apply mem_column in Hm. destruct Hm as [c Hc]. congruence.
      - rewrite (column_absent _ _ Hm) in Ha. injection Ha as <-.
        intros [= <-]. now apply (missing_amount _ _ _ _ _ raw df). }
  destruct (mapM to_float cells) as [amounts|e0] eqn:Hf;
    [|intros [= <-]; now apply (bad_amount _ _ _ _ _ raw df cells)].
  destruct (column (str "Date") df) as [dcells|e0] eqn:Hd.
  2:{ destruct (mem (str "Date") (column_names df)) eqn:Hm.
      - apply mem_column in Hm. destruct Hm as [c Hc]. congruence.
      - rewrite (column_absent _ _ Hm) in Hd. injection Hd as <-.
        intros [= <-].
        now apply (missing_date _ _ _ _ _ raw df cells amounts). }
  destruct (mapM to_datetime dcells) as [dates|e0] eqn:Ht;
    [|intros [= <-];
      now apply (bad_date _ _ _ _ _ raw df cells amounts dcells)].
  destruct (negb _) eqn:Hn.
  - intros [= <-].
    apply (missing_details _ _ _ _ _ raw df cells amounts dcells dates);
      try assumption.
    destruct (mem (str "Details") (column_names df)) eqn:Hm; [|reflexivity].
    exfalso. apply negb_true_iff in Hn. apply not_true_iff_false in Hn.
    apply Hn. apply forallb_forall. intros col Hcol.
    assert (Hin : forall name, mem name (column_names df) = true ->
                    mem name (with_direction (column_names df)) = true).
    { intros name H. unfold with_direction.
      destruct (mem (str "Debit/Credit") (column_names df)); [assumption|].
      apply mem_In, in_or_app. left. now apply mem_In. }
    unfold required_columns in Hcol. simpl in Hcol.
    destruct Hcol as [<- | [<- | [<- | [<- | []]]]].
    + apply Hin. now apply (column_present _ _ dcells).
    + now apply Hin.
    + apply Hin. now apply (column_present _ _ cells).
    + unfold with_direction.
      destruct (mem (str "Debit/Credit") (column_names df)) eqn:Hdc;
        [assumption|].
      apply mem_In, in_or_app. right. now left.
  - destruct (column (str "Details") df) as [details|e0] eqn:Hdet;
      [discriminate|].
    exfalso. apply negb_false_iff in Hn.
    rewrite forallb_forall in Hn.
    assert (Hm : mem (str "Details") (with_direction (column_names df))
                 = true).
    { apply Hn. unfold required_columns. simpl. auto. }
    assert (Hm2 : mem (str "Details") (column_names df) = true).
    { unfold with_direction in Hm.
      destruct (mem (str "Debit/Credit") (column_names df)); [assumption|].
      apply mem_In in Hm. apply in_app_or in Hm.
      destruct Hm as [Hm | [Hm | []]]; [now apply mem_In | discriminate]. }
    apply mem_column in Hm2. destruct Hm2 as [c Hc]. congruence.
Qed.

(** C7: every failure of the loader (a CSV that does not parse, a missing
    Date, Amount or Details column, an amount that is not a number, a date
    that is not a date) is caught inside it: [load_transactions] returns
    [None] and shows the one message "Error processing file: " followed by
    the text of the exception, and the upload branch of [main] leaves the
    session state as it was. *)
Theorem load_errors_are_caught (file : File) (app : app_state) (e : exn) :
  load_failure File read_csv to_float to_datetime file e ->
  load (categories (app_session app)) file
  = (None, [str "Error processing file: " ++ exn_str e])
  /\ upload file app
     = (app, [str "Error processing file: " ++ exn_str e]).
Proof.
  intros H.
  apply (load_failure_raises (categories (app_session app))) in H.
  assert (Hl : load (categories (app_session app)) file
               = (None, [str "Error processing file: " ++ exn_str e])).
  { unfold load, load_transactions. fold body. now rewrite H. }
  split; [exact Hl|].
  unfold upload, main_upload. fold load. now rewrite Hl.
Qed.

(** The failures listed are all there are: the loader returns a table and
    shows nothing, or one of them occurred. *)
Lemma load_outcomes (cats : store) (file : File) :
  (exists df, load cats file = (Some df, []))
  \/ (exists e,
        load_failure File read_csv to_float to_datetime file e
        /\ load cats file
           = (None, [str "Error processing file: " ++ exn_str e])).
Proof.
  unfold load, load_transactions. fold body.
  destruct (body cats file) as [df|e] eqn:E; [left; eauto|].
  right. exists e. split; [|reflexivity].
  now apply (raise_is_load_failure cats).
Qed.

(** The loader returns in every case: a table and no message, or [None]
    and the message of the exception. *)
Lemma load_total (cats : store) (file : File) :
  (exists df, body cats file = Ok df /\ load cats file = (Some df, []))
  \/ (exists e, body cats file = Raise e
                /\ load cats file = (None, error_shown e)).
Proof.
  unfold load, load_transactions. fold body.
  destruct (body cats file) as [df|e]; [left | right]; eauto.
Qed.

End LoaderProperties.

Lemma loaded_direction_witness :
  exists df,
    load_transactions frame sample_read_csv sample_to_float sample_to_datetime
      DEFAULT_CATEGORIES sample_file = (Some df, [])
    /\ length df = 3
    /\ Forall (fun row =>
                 (Direction (fields row) = Credit
                  <-> (0 < Amount (fields row))%Q)
                 /\ (Direction (fields row) = Debit
                     <-> ~ (0 < Amount (fields row))%Q)
                 /\ ((Amount (fields row) == 0)%Q
                     -> Direction (fields row) = Debit))
              df.
Proof.
  eexists. split; [vm_compute; reflexivity|]. split; [reflexivity|].
  apply (loaded_direction frame sample_read_csv sample_to_float
           sample_to_datetime DEFAULT_CATEGORIES sample_file _ []).
  vm_compute. reflexivity.
Defined.

Lemma load_errors_are_caught_witness :
  load_transactions frame sample_read_csv sample_to_float sample_to_datetime
    (categories (app_session sample_app)) sample_bad_amount
  = (None,
     [str "Error processing file: "
      ++ exn_str (ValueError
                    (str "could not convert string to float: twelve"))])
  /\ main_upload frame sample_read_csv sample_to_float sample_to_datetime
       sample_bad_amount sample_app
     = (sample_app,
        [str "Error processing file: "
         ++ exn_str (ValueError
                       (str "could not convert string to float: twelve"))]).
Proof.
  apply (load_errors_are_caught frame sample_read_csv sample_to_float
           sample_to_datetime sample_bad_amount sample_app).
  apply (bad_amount frame sample_read_csv sample_to_float sample_to_datetime
           sample_bad_amount sample_bad_amount sample_bad_amount
           [str "twelve"]); reflexivity.
Defined.

(** ** The savings goal and the budget *)

Lemma divide_zero (a b : Q) : (b == 0)%Q -> divide a b = DivisionByZero.
Proof.
  intros H. unfold divide. apply Qeq_bool_iff in H. now rewrite H.
Qed.

(** The goal block divides by the average monthly net without testing it. *)
Lemma savings_goal_zero_net (goal_amount : Q) (projections : list Q) :
  (0 < goal_amount)%Q ->
  (last projections 0 == 0)%Q ->
  savings_goal goal_amount projections = Some DivisionByZero.
Proof.
  intros Hg Hz. unfold savings_goal.
  assert (E : Qgt_bool goal_amount 0 = true).
  { unfold Qgt_bool. apply negb_true_iff, not_true_iff_false.
    intros H. apply Qle_bool_iff in H. exact (Qlt_not_le _ _ Hg H). }
  rewrite E. f_equal. apply divide_zero. rewrite Hz. reflexivity.
Qed.

(** The budget block tests its denominator first. *)
Lemma budget_progress_guarded (actual_spending budget_limit : Q) :
  exists q, budget_progress actual_spending budget_limit = Finite q.
Proof.
  unfold budget_progress, Qgt_bool, divide.
  destruct (Qle_bool budget_limit 0) eqn:E; simpl; [now exists 0%Q|].
  destruct (Qeq_bool budget_limit 0) eqn:Z; [|eauto].
  apply Qeq_bool_iff in Z. exfalso. apply not_true_iff_false in E. apply E.
  apply Qle_bool_iff. rewrite Z. apply Qle_refl.
Qed.

(** C2, the code at a failing input: for a month whose income and
    expenses cancel, all thirteen projections are zero, and with a goal of
    100 the goal block reaches its division with a zero denominator; the
    budget block of the same program never does. *)
Theorem savings_goal_divides_by_zero :
  let df := categorize_transactions DEFAULT_CATEGORIES balanced_month in
  calculate_savings_projections df = repeat 0%Q 13
  /\ savings_goal 100 (calculate_savings_projections df)
     = Some DivisionByZero
  /\ budget_progress 100 0 = Finite 0.
Proof. repeat split; vm_compute; reflexivity. Qed.

(** ** The loop over the trailing codes *)

Lemma startswith_app (s p : text) :
  startswith s p = true -> exists t, s = p ++ t.
Proof.
  revert s. induction p as [|c p IH]; intros s H.
  - now exists s.
  - destruct s as [|d s]; simpl in H; [discriminate|].
    destruct (ascii_dec c d) as [->|]; [|discriminate].
    destruct (IH s H) as [t ->]. now exists t.
Qed.

Lemma endswith_app (s suffix : text) :
  endswith s suffix = true ->
  s = drop_last (length suffix) s ++ suffix.
Proof.
  unfold endswith, drop_last. intros H.
  apply startswith_app in H. destruct H as [t Ht].
  assert (E : s = rev t ++ suffix).
  { rewrite <- (rev_involutive s), Ht, rev_app_distr, rev_involutive.
    reflexivity. }
  rewrite E at 2 3. rewrite length_app, Nat.add_sub.
  rewrite firstn_app, Nat.sub_diag, firstn_all. simpl.
  rewrite app_nil_r. exact E.
Qed.

Lemma fold_remove_suffix (suffixes : list text) (details : text) :
  exists removed,
    subseq removed suffixes
    /\ details
       = fold_left remove_suffix suffixes details ++ concat (rev removed).
Proof.
  revert details. induction suffixes as [|suffix rest IH]; intros details.
  - exists []. split; [constructor | now rewrite app_nil_r].
  - simpl. destruct (IH (remove_suffix details suffix)) as [removed [Hs He]].
    unfold remove_suffix in *.
    destruct (endswith details suffix) eqn:E.
    + exists (suffix :: removed). split; [now constructor|].
      simpl. rewrite concat_app. simpl. rewrite app_nil_r, app_assoc, <- He.
      now apply endswith_app.
    + exists removed. split; [now constructor | exact He].
Qed.

Lemma subseq_In {A : Type} (a b : list A) (x : A) :
  subseq a b -> In x a -> In x b.
Proof.
  induction 1 as [| y a b _ IH | y a b _ IH]; simpl; intuition.
Qed.

Lemma subseq_NoDup {A : Type} (a b : list A) :
  subseq a b -> NoDup b -> NoDup a.
Proof.
  induction 1 as [| y a b Hs IH | y a b Hs IH]; intros Hb.
  - constructor.
  - inversion Hb as [|? ? Hn Hb']; subst. constructor; [|now apply IH].
    intros Hin. apply Hn. now apply (subseq_In a b).
  - inversion Hb; subst. now apply IH.
Qed.

Lemma suffixes_to_remove_NoDup : NoDup suffixes_to_remove.
Proof.
  unfold suffixes_to_remove.
  repeat (constructor; [simpl; intuition discriminate|]). constructor.
Qed.

Lemma fold_remove_suffix_none (suffixes : list text) (details : text) :
  existsb (endswith details) suffixes = false ->
  fold_left remove_suffix suffixes details = details.
Proof.
  induction suffixes as [|suffix rest IH]; simpl; [reflexivity|].
  intros H. apply orb_false_iff in H. destruct H as [H1 H2].
  unfold remove_suffix at 2. rewrite H1. now apply IH.
Qed.

Lemma startswith_prefix (p t : text) : startswith (p ++ t) p = true.
Proof.
  induction p as [|c p IH]; simpl.
  - now destruct t.
  - destruct (ascii_dec c c); [exact IH | congruence].
Qed.

Lemma endswith_suffix (stem suffix : text) :
  endswith (stem ++ suffix) suffix = true.
Proof.
  unfold endswith. rewrite rev_app_distr. apply startswith_prefix.
Qed.

Lemma remove_suffix_strips (stem suffix : text) :
  remove_suffix (stem ++ suffix) suffix = stem.
Proof.
  unfold remove_suffix, drop_last. rewrite endswith_suffix.
  rewrite length_app, Nat.add_sub, firstn_app, Nat.sub_diag, firstn_all.
  simpl. apply app_nil_r.
Qed.

Lemma strips_in_turn_fold (suffixes : list text) (d r : text) :
  strips_in_turn suffixes d r <-> r = fold_left remove_suffix suffixes d.
Proof.
  split.
  - induction 1 as [d | suffix rest d stem r -> _ IH
                   | suffix rest d r Hno _ IH]; simpl.
    + reflexivity.
    + now rewrite remove_suffix_strips.
    + unfold remove_suffix at 2. now rewrite Hno.
  - intros ->. revert d. induction suffixes as [|suffix rest IH]; intros d;
      simpl; [constructor|].
    unfold remove_suffix at 2. destruct (endswith d suffix) eqn:E.
    + apply (turn_strip suffix rest d (drop_last (length suffix) d));
        [now apply endswith_app | apply IH].
    + apply turn_keep; [assumption | apply IH].
Qed.

(** No string ends in two different codes. *)
Lemma codes_exclusive (a b y : text) :
  In a suffixes_to_remove -> In b suffixes_to_remove -> a <> b ->
  endswith (y ++ a) b = false.
Proof.
  intros Ha Hb Hne. unfold endswith. rewrite rev_app_distr.
  unfold suffixes_to_remove in Ha, Hb. cbn [In] in Ha, Hb.
  repeat (destruct Ha as [<- | Ha]; [|]);
    try contradiction;
    repeat (destruct Hb as [<- | Hb]; [|]);
    try contradiction; try congruence; reflexivity.
Qed.

Lemma fold_strips_stack (suffixes removed : list text) (stem : text) :
  subseq removed suffixes ->
  NoDup suffixes ->
  (forall a b y, In a suffixes -> In b suffixes -> a <> b ->
                 endswith (y ++ a) b = false) ->
  existsb (endswith stem) suffixes = false ->
  fold_left remove_suffix suffixes (stem ++ concat (rev removed)) = stem.
Proof.
  induction 1 as [| x a b Hs IH | x a b Hs IH]; intros Hnd Hex Hstem.
  - simpl. now rewrite app_nil_r.
  - simpl in Hstem. apply orb_false_iff in Hstem. destruct Hstem as [_ Hb].
    inversion Hnd; subst.
    cbn [rev fold_left]. rewrite concat_app. simpl concat.
    rewrite app_nil_r, app_assoc, remove_suffix_strips.
    apply IH; try assumption.
    intros p q y Hp Hq. apply Hex; now right.
  - simpl in Hstem. apply orb_false_iff in Hstem. destruct Hstem as [Hx Hb].
    inversion Hnd as [|? ? Hnotin Hnd']; subst.
    cbn [fold_left].
    assert (Hno : endswith (stem ++ concat (rev a)) x = false).
    { destruct a as [|a1 a]; [simpl; now rewrite app_nil_r|].
      cbn [rev]. rewrite concat_app. simpl concat.
      rewrite app_nil_r, app_assoc.
      assert (Hin : In a1 b) by (apply (subseq_In _ _ a1 Hs); now left).
      apply Hex; [now right | now left |].
      intros ->. contradiction. }
    unfold remove_suffix at 2. rewrite Hno.
    apply IH; try assumption.
    intros p q y Hp Hq. apply Hex; now right.
Qed.

(** C4, counterexample: "TESCO DDR CPM" ends in two stacked codes and
    loses both: the loop strips " CPM" first and meets " DDR" later. *)
Lemma strips_one_code_counterexample :
  str "TESCO DDR CPM" = str "TESCO" ++ str " DDR" ++ str " CPM"
  /\ strip_suffixes (str "TESCO DDR CPM") = str "TESCO"
  /\ clean_transaction_details (str "TESCO DDR CPM") = str "TESCO".
Proof. repeat split; vm_compute; reflexivity. Qed.

(** C4, as the code has it: the loop tests the seven codes once each, in
    the order CPM, CLP, BCC, DDR, BGC, STO, FT, against the end of the
    string as it then stands, and strips every code that matches; its
    result is the one that testing and stripping turn by turn gives.  What
    it strips is a run of different codes that stand at the end of the
    string in the reverse of that order; conversely, after a stem that ends
    in no code every such run is stripped whole.  So one code is stripped
    when only one stands there ("TESCO STORES DDR" gives "TESCO STORES",
    "TESCO CPM DDR" gives "TESCO CPM"), two when they are stacked in
    reverse order ("TESCO DDR CPM" gives "TESCO"), and nothing when the
    string ends in no code. *)
Theorem strip_suffixes_each_code_once (details : text) :
  (forall result,
     strips_in_turn suffixes_to_remove details result
     <-> result = strip_suffixes details)
  /\ (exists removed,
        subseq removed suffixes_to_remove
        /\ NoDup removed
        /\ details = strip_suffixes details ++ concat (rev removed))
  /\ (forall removed,
        subseq removed suffixes_to_remove ->
        ends_with_code details = false ->
        strip_suffixes (details ++ concat (rev removed)) = details)
  /\ (ends_with_code details = false -> strip_suffixes details = details)
  /\ clean_transaction_details (str "TESCO STORES DDR") = str "TESCO STORES"
  /\ clean_transaction_details (str "TESCO CPM DDR") = str "TESCO CPM"
  /\ strip_suffixes (str "TESCO DDR CPM") = str "TESCO".
Proof.
  split; [|split; [|split; [|split; [|repeat split; vm_compute;
                                       reflexivity]]]].
  - intros result. apply strips_in_turn_fold.
  - destruct (fold_remove_suffix suffixes_to_remove details)
      as [removed [Hs He]].
    exists removed. repeat split; try assumption.
    exact (subseq_NoDup _ _ Hs suffixes_to_remove_NoDup).
  - intros removed Hs Hend.
    apply (fold_strips_stack suffixes_to_remove removed details Hs
             suffixes_to_remove_NoDup);
      [|exact Hend].
    intros a b y. apply codes_exclusive.
  - apply fold_remove_suffix_none.
Qed.

(** ** What the steps of the normaliser preserve *)

Section Preserved.

Variable P : ascii -> Prop.

Lemma lstrip_Forall (s : text) : Forall P s -> Forall P (lstrip s).
Proof.
  induction 1 as [|c s Hc Hs IH]; simpl; [constructor|].
  destruct (is_space c); [assumption | now constructor].
Qed.

Lemma strip_Forall (s : text) : Forall P s -> Forall P (strip s).
Proof.
  intros H. unfold strip, rstrip.
  now apply lstrip_Forall, Forall_rev, lstrip_Forall, Forall_rev.
Qed.

Lemma firstn_Forall (n : nat) (s : text) :
  Forall P s -> Forall P (firstn n s).
Proof.
  intros H. rewrite <- (firstn_skipn n s) in H.
  now apply Forall_app in H.
Qed.

Lemma strip_suffixes_Forall (s : text) :
  Forall P s -> Forall P (strip_suffixes s).
Proof.
  unfold strip_suffixes. generalize suffixes_to_remove as suffixes.
  intros suffixes. revert s.
  induction suffixes as [|suffix rest IH]; intros s H; simpl; [assumption|].
  apply IH. unfold remove_suffix, drop_last.
  destruct (endswith s suffix); [now apply firstn_Forall | assumption].
Qed.

Lemma re_sub_date_Forall (skip : nat) (s : text) :
  Forall P s -> Forall P (re_sub_date skip s).
Proof.
  intros H. revert skip.
  induction H as [|c s Hc Hs IH]; intros skip; simpl; [constructor|].
  destruct skip as [|k]; [|apply IH].
  destruct (match_date (c :: s)) as [[|k]|]; try (now constructor).
  apply IH.
Qed.

Lemma split_from_Forall (s cur : text) :
  Forall P cur -> Forall P s -> Forall (Forall P) (split_from cur s).
Proof.
  intros Hcur Hs. revert cur Hcur.
  induction Hs as [|c s Hc Hs IH]; intros cur Hcur; simpl.
  - destruct cur; constructor; [now apply Forall_rev | constructor].
  - destruct (is_space c).
    + destruct cur as [|d cur].
      * apply IH. constructor.
      * constructor; [now apply Forall_rev | apply IH; constructor].
    + apply IH. now constructor.
Qed.

Lemma join_Forall (sep : text) (ws : list text) :
  Forall P sep -> Forall (Forall P) ws -> Forall P (join sep ws).
Proof.
  intros Hsep Hws.
  induction Hws as [|w ws Hw Hws IH]; simpl; [constructor|].
  destruct ws as [|w2 ws]; [assumption|].
  apply Forall_app. split; [assumption|].
  apply Forall_app. split; assumption.
Qed.

End Preserved.

Lemma to_upper_idempotent (c : ascii) : to_upper (to_upper c) = to_upper c.
Proof. destruct c as [[] [] [] [] [] [] [] []]; reflexivity. Qed.

Lemma upper_fixed (s : text) :
  Forall (fun c => to_upper c = c) s -> upper s = s.
Proof.
  induction 1 as [|c s Hc Hs IH]; simpl; [reflexivity|].
  now rewrite Hc, IH.
Qed.

Lemma clean_is_upper (x : text) :
  Forall (fun c => to_upper c = c) (clean_transaction_details x).
Proof.
  unfold clean_transaction_details.
  apply join_Forall; [repeat constructor|].
  apply split_from_Forall; [constructor|].
  apply re_sub_date_Forall, strip_suffixes_Forall, strip_Forall.
  unfold upper. apply Forall_forall. intros c Hin.
  apply in_map_iff in Hin. destruct Hin as [d [<- _]].
  apply to_upper_idempotent.
Qed.

(** ** Words *)

Lemma split_from_words (s cur : text) :
  Forall (fun c => is_space c = false) cur ->
  Forall word_ok (split_from cur s).
Proof.
  revert cur. induction s as [|c s IH]; intros cur Hcur; simpl.
  - destruct cur as [|d cur]; constructor; [|constructor].
    split; [|now apply Forall_rev].
    simpl. intros E. now apply app_eq_nil in E.
  - destruct (is_space c) eqn:E.
    + destruct cur as [|d cur]; [now apply IH|].
      constructor; [|apply IH; constructor].
      split; [|now apply Forall_rev].
      simpl. intros N. now apply app_eq_nil in N.
    + apply IH. now constructor.
Qed.

Lemma split_from_word (w cur rest : text) :
  Forall (fun c => is_space c = false) w ->
  split_from cur (w ++ rest) = split_from (rev w ++ cur) rest.
Proof.
  intros H. revert cur.
  induction H as [|c w Hc Hw IH]; intros cur; simpl; [reflexivity|].
  rewrite Hc, IH, <- app_assoc. reflexivity.
Qed.

Lemma split_join (ws : list text) :
  Forall word_ok ws -> split (join (str " ") ws) = ws.
Proof.
  unfold split.
  induction 1 as [|w ws [Hne Hw] Hws IH]; simpl; [reflexivity|].
  destruct ws as [|w2 ws].
  - replace (split_from [] w) with (split_from [] (w ++ []))
      by now rewrite app_nil_r.
    rewrite split_from_word by assumption.
    rewrite app_nil_r. simpl.
    destruct (rev w) eqn:E.
    + apply (f_equal (@rev ascii)) in E. rewrite rev_involutive in E.
      now subst.
    + now rewrite <- E, rev_involutive.
  - rewrite split_from_word by assumption. rewrite app_nil_r.
    change (str " " ++ join (str " ") (w2 :: ws))
      with (" "%char :: join (str " ") (w2 :: ws)).
    cbn [split_from]. change (is_space " "%char) with true. cbv iota.
    destruct (rev w) eqn:E.
    + apply (f_equal (@rev ascii)) in E. rewrite rev_involutive in E.
      now subst.
    + rewrite <- E, rev_involutive. f_equal. exact IH.
Qed.

Lemma lstrip_head_ok (s : text) : head_ok s -> lstrip s = s.
Proof. destruct s as [|c s]; simpl; [reflexivity | now intros ->]. Qed.

Lemma strip_head_ok (s : text) :
  head_ok s -> head_ok (rev s) -> strip s = s.
Proof.
  intros H1 H2. unfold strip, rstrip.
  rewrite (lstrip_head_ok (rev s)) by assumption.
  rewrite rev_involutive. now apply lstrip_head_ok.
Qed.

Lemma head_ok_app (a b : text) : a <> [] -> head_ok a -> head_ok (a ++ b).
Proof. destruct a as [|c a]; [congruence | trivial]. Qed.

Lemma word_head_ok (w : text) : word_ok w -> head_ok w /\ head_ok (rev w).
Proof.
  intros [_ H]. split.
  - destruct H; simpl; trivial.
  - apply Forall_rev in H. destruct H; simpl; trivial.
Qed.

Lemma join_nonempty (ws : list text) (w : text) :
  word_ok w -> join (str " ") (w :: ws) <> [].
Proof.
  intros [Hne _]. simpl. destruct ws; [assumption|].
  intros E. now apply app_eq_nil in E.
Qed.

Lemma join_head_ok (ws : list text) :
  Forall word_ok ws ->
  head_ok (join (str " ") ws) /\ head_ok (rev (join (str " ") ws)).
Proof.
  induction 1 as [|w ws Hw Hws [IH1 IH2]]; [now split|].
  cbn [join]. destruct ws as [|w2 ws]; [now apply word_head_ok|].
  split.
  - apply head_ok_app; [apply Hw | now apply word_head_ok].
  - rewrite !rev_app_distr, <- app_assoc.
    apply head_ok_app; [|exact IH2].
    intros E. apply (f_equal (@rev ascii)) in E.
    rewrite rev_involutive in E. inversion Hws as [|? ? Hw2 _]; subst.
    now apply (join_nonempty ws w2).
Qed.

Lemma strip_join (ws : list text) :
  Forall word_ok ws -> strip (join (str " ") ws) = join (str " ") ws.
Proof.
  intros H. destruct (join_head_ok ws H). now apply strip_head_ok.
Qed.

(** ** Lengths *)

Lemma remove_suffix_length (details suffix : text) :
  length (remove_suffix details suffix) <= length details.
Proof.
  unfold remove_suffix, drop_last.
  destruct (endswith details suffix); [|lia].
  rewrite length_firstn. lia.
Qed.

Lemma fold_remove_suffix_length (suffixes : list text) (details : text) :
  length (fold_left remove_suffix suffixes details) <= length details.
Proof.
  revert details. induction suffixes as [|suffix rest IH]; intros details;
    simpl; [lia|].
  specialize (IH (remove_suffix details suffix)).
  pose proof (remove_suffix_length details suffix). lia.
Qed.

Lemma fold_remove_suffix_shorter (suffixes : list text) (details : text) :
  Forall (fun suffix => suffix <> []) suffixes ->
  existsb (endswith details) suffixes = true ->
  length (fold_left remove_suffix suffixes details) < length details.
Proof.
  intros Hne. revert details.
  induction Hne as [|suffix rest Hs Hrest IH]; intros details; simpl;
    [discriminate|].
  intros H. pose proof (fold_remove_suffix_length rest
                          (remove_suffix details suffix)) as Hle.
  unfold remove_suffix in *.
  destruct (endswith details suffix) eqn:E.
  - apply endswith_app in E. apply (f_equal (@length ascii)) in E.
    rewrite length_app in E.
    assert (0 < length suffix) by (destruct suffix; simpl; [congruence|lia]).
    lia.
  - simpl in H. now apply IH.
Qed.

Lemma strip_suffixes_shorter (s : text) :
  ends_with_code s = true -> length (strip_suffixes s) < length s.
Proof.
  apply fold_remove_suffix_shorter. unfold suffixes_to_remove.
  repeat (constructor; [discriminate|]). constructor.
Qed.

Lemma re_sub_date_length (skip : nat) (s : text) :
  length (re_sub_date skip s) <= length s.
Proof.
  revert skip. induction s as [|c s IH]; intros skip; simpl; [lia|].
  destruct skip as [|k]; [|specialize (IH k); lia].
  destruct (match_date (c :: s)) as [[|k]|]; simpl;
    try (specialize (IH 0); lia).
  specialize (IH k); lia.
Qed.

Lemma match_date_positive (s : text) (n : nat) :
  match_date s = Some n -> 0 < n.
Proof.
  unfold match_date.
  destruct (lead_ws s) as [|n1]; [discriminate|].
  destruct (skipn (S n1) s) as [|o [|m s2]]; try discriminate.
  destruct (ascii_dec o "O"); [|discriminate].
  destruct (ascii_dec m "N"); [|discriminate].
  destruct (lead_ws s2) as [|n2]; [discriminate|].
  destruct (skipn (S n2) s2) as [|d1 [|d2 s3]]; try discriminate.
  destruct (is_digit d1 && is_digit d2); [|discriminate].
  destruct (lead_ws s3) as [|n3]; [discriminate|].
  destruct (skipn (S n3) s3) as [|a [|b [|c s4]]]; try discriminate.
  destruct (is_AZ a && is_AZ b && is_AZ c); [|discriminate].
  intros [= <-]. lia.
Qed.

Lemma re_sub_date_shorter (s : text) :
  has_date s = true -> length (re_sub_date 0 s) < length s.
Proof.
  induction s as [|c s IH]; simpl.
  - change (match_date []) with (@None nat). discriminate.
  - destruct (match_date (c :: s)) as [n|] eqn:E.
    + intros _. apply match_date_positive in E as Hn.
      destruct n as [|k]; [lia|]. simpl.
      pose proof (re_sub_date_length k s). lia.
    + intros H. specialize (IH H). simpl. lia.
Qed.

Lemma re_sub_date_none (s : text) :
  has_date s = false -> re_sub_date 0 s = s.
Proof.
  induction s as [|c s IH]; simpl; [reflexivity|].
  destruct (match_date (c :: s)) as [n|]; [discriminate|].
  intros H. now rewrite IH.
Qed.

Lemma join_cons_length (w : text) (ws : list text) :
  length (join (str " ") (w :: ws))
  <= length w + 1 + length (join (str " ") ws).
Proof.
  cbn [join]. destruct ws as [|w2 ws]; [simpl; lia|].
  rewrite !length_app. simpl. lia.
Qed.

Lemma join_split_from_length (s cur : text) :
  length (join (str " ") (split_from cur s)) <= length cur + length s.
Proof.
  revert cur. induction s as [|c s IH]; intros cur; simpl.
  - destruct cur as [|d cur]; simpl; [lia|].
    rewrite length_app, length_rev. simpl. lia.
  - destruct (is_space c).
    + destruct cur as [|d cur]; [specialize (IH []); simpl in *; lia|].
      pose proof (join_cons_length (rev (d :: cur)) (split_from [] s)) as H.
      specialize (IH []). rewrite length_rev in H. simpl in *. lia.
    + specialize (IH (c :: cur)). simpl in *. lia.
Qed.

Lemma join_split_length (s : text) :
  length (join (str " ") (split s)) <= length s.
Proof. exact (join_split_from_length s []). Qed.

Lemma strip_suffixes_none (s : text) :
  ends_with_code s = false -> strip_suffixes s = s.
Proof. exact (fold_remove_suffix_none suffixes_to_remove s). Qed.

(** ** The normaliser applied twice *)

(** On its own output the normaliser has nothing left to do in its first
    step: the text is upper case and trimmed already. *)
Lemma clean_of_clean (x : text) :
  let y := clean_transaction_details x in
  clean_transaction_details y
  = join (str " ") (split (re_sub_date 0 (strip_suffixes y))).
Proof.
  intros y. unfold clean_transaction_details at 1.
  rewrite (upper_fixed y) by apply clean_is_upper.
  unfold y at 1. unfold clean_transaction_details at 1.
  rewrite strip_join by (apply split_from_words; constructor).
  reflexivity.
Qed.

Lemma clean_join_split (x : text) :
  let y := clean_transaction_details x in
  join (str " ") (split y) = y.
Proof.
  intros y. unfold y, clean_transaction_details.
  rewrite split_join by (apply split_from_words; constructor).
  reflexivity.
Qed.

(** C5, counterexample: "TESCO CPM DDR" is normalised to "TESCO CPM", and
    "TESCO CPM" to "TESCO". *)
Lemma clean_idempotent_counterexample :
  clean_transaction_details (str "TESCO CPM DDR") = str "TESCO CPM"
  /\ clean_transaction_details
       (clean_transaction_details (str "TESCO CPM DDR"))
     = str "TESCO"
  /\ clean_transaction_details
       (clean_transaction_details (str "TESCO CPM DDR"))
     <> clean_transaction_details (str "TESCO CPM DDR").
Proof. repeat split; vm_compute; [reflexivity .. | discriminate]. Qed.

(** C5, as the code has it: a second application of the normaliser changes
    nothing exactly when the output of the first neither ends in one of the
    seven codes nor contains a date fragment; one pass can leave either. *)
Theorem clean_idempotent_iff (x : text) :
  let y := clean_transaction_details x in
  clean_transaction_details y = y
  <-> ends_with_code y = false /\ has_date y = false.
Proof.
  intros y. pose proof (clean_of_clean x) as Hcc. fold y in Hcc. cbv zeta in Hcc.
  split.
  - intros Hfix.
    assert (Hlen : length (clean_transaction_details y) = length y)
      by now rewrite Hfix.
    rewrite Hcc in Hlen.
    pose proof (join_split_length (re_sub_date 0 (strip_suffixes y))) as H1.
    pose proof (re_sub_date_length 0 (strip_suffixes y)) as H2.
    destruct (ends_with_code y) eqn:Ec.
    + apply strip_suffixes_shorter in Ec. lia.
    + split; [reflexivity|].
      pose proof (strip_suffixes_none y Ec) as Hs. rewrite Hs in *.
      destruct (has_date y) eqn:Ed; [|reflexivity].
      apply re_sub_date_shorter in Ed. lia.
  - intros [Ec Ed]. rewrite Hcc.
    rewrite (strip_suffixes_none y Ec).
    rewrite (re_sub_date_none y Ed). apply clean_join_split.
Qed.

(** * Further properties of the code *)

(** ** The shape of normalised text *)

(** The output of the normaliser is upper case, trimmed and single-spaced:
    [y.upper() == y], [y.strip() == y] and [' '.join(y.split()) == y]. *)
Theorem clean_normal_form (x : text) :
  let y := clean_transaction_details x in
  upper y = y /\ strip y = y /\ join (str " ") (split y) = y.
Proof.
  intros y. split; [|split].
  - apply upper_fixed, clean_is_upper.
  - unfold y, clean_transaction_details.
    apply strip_join, split_from_words. constructor.
  - apply clean_join_split.
Qed.

Lemma lstrip_length (s : text) : length (lstrip s) <= length s.
Proof.
  induction s as [|c s IH]; simpl; [lia|].
  destruct (is_space c); simpl; lia.
Qed.

Lemma strip_length (s : text) : length (strip s) <= length s.
Proof.
  unfold strip, rstrip.
  pose proof (lstrip_length (rev (lstrip (rev s)))) as H1.
  pose proof (lstrip_length (rev s)) as H2.
  rewrite !length_rev in *. lia.
Qed.

(** On details made of ASCII characters the normaliser only removes or
    merges characters: its output is never longer than its input.  (Outside
    ASCII [str.upper] can lengthen a string: U+00DF becomes "SS".) *)
Theorem clean_never_longer (x : text) :
  Forall (fun c => (code c < 128)%N) x ->
  length (clean_transaction_details x) <= length x.
Proof.
  intros _. unfold clean_transaction_details.
  pose proof (join_split_length
                (re_sub_date 0 (strip_suffixes (strip (upper x))))) as H1.
  pose proof (re_sub_date_length 0 (strip_suffixes (strip (upper x)))) as H2.
  pose proof (fold_remove_suffix_length suffixes_to_remove
                (strip (upper x))) as H3.
  fold (strip_suffixes (strip (upper x))) in H3.
  pose proof (strip_length (upper x)) as H4.
  unfold upper in H4 at 2. rewrite length_map in H4. lia.
Qed.

Lemma clean_never_longer_witness :
  length (clean_transaction_details (str "Tesco  Stores ddr")) <= 17.
Proof.
  apply (clean_never_longer (str "Tesco  Stores ddr")).
  repeat (constructor; [reflexivity|]). constructor.
Defined.

Lemma is_space_to_upper (c : ascii) : is_space (to_upper c) = is_space c.
Proof. destruct c as [[] [] [] [] [] [] [] []]; reflexivity. Qed.

Lemma lstrip_blank (s : text) :
  Forall (fun c => is_space c = true) s -> lstrip s = [].
Proof.
  induction 1 as [|c s Hc Hs IH]; simpl; [reflexivity | now rewrite Hc].
Qed.

(** Blank details (empty, or white space only) are normalised to the empty
    string. *)
Theorem clean_blank (x : text) :
  Forall (fun c => is_space c = true) x ->
  clean_transaction_details x = [].
Proof.
  intros H. unfold clean_transaction_details.
  assert (Hu : Forall (fun c => is_space c = true) (upper x)).
  { unfold upper. apply Forall_forall. intros c Hin.
    apply in_map_iff in Hin. destruct Hin as [d [<- Hd]].
    rewrite is_space_to_upper. rewrite Forall_forall in H. now apply H. }
  assert (Hs : strip (upper x) = []).
  { unfold strip, rstrip. rewrite (lstrip_blank (rev (upper x))).
    - reflexivity.
    - now apply Forall_rev. }
  rewrite Hs. reflexivity.
Qed.

Lemma clean_blank_witness :
  clean_transaction_details (str "   ") = [].
Proof.
  apply (clean_blank (str "   ")). repeat constructor.
Defined.

Lemma upper_idempotent (s : text) : upper (upper s) = upper s.
Proof.
  unfold upper. rewrite map_map. apply map_ext. apply to_upper_idempotent.
Qed.

Lemma lstrip_pad (pad s : text) :
  Forall (fun c => is_space c = true) pad -> lstrip (pad ++ s) = lstrip s.
Proof.
  induction 1 as [|c pad Hc Hp IH]; simpl; [reflexivity | now rewrite Hc].
Qed.

Lemma lstrip_app_solid (a b : text) :
  lstrip a <> [] -> lstrip (a ++ b) = lstrip a ++ b.
Proof.
  induction a as [|c a IH]; simpl; [congruence|].
  destruct (is_space c); [exact IH | reflexivity].
Qed.

Lemma strip_pad (left right s : text) :
  Forall (fun c => is_space c = true) left ->
  Forall (fun c => is_space c = true) right ->
  strip (left ++ s ++ right) = strip s.
Proof.
  intros Hl Hr. unfold strip, rstrip.
  rewrite !rev_app_distr, <- app_assoc.
  rewrite (lstrip_pad (rev right)) by now apply Forall_rev.
  destruct (lstrip (rev s)) as [|c t] eqn:E.
  - assert (Hb : lstrip (rev s ++ rev left) = []).
    { assert (Hs : Forall (fun c => is_space c = true) (rev s)).
      { clear - E. induction (rev s) as [|c r IH]; [constructor|].
        simpl in E. destruct (is_space c) eqn:Ec; [|discriminate].
        constructor; [assumption | now apply IH]. }
      apply lstrip_blank, Forall_app. split; [assumption|].
      now apply Forall_rev. }
    now rewrite Hb.
  - rewrite lstrip_app_solid by (rewrite E; discriminate).
    rewrite E, rev_app_distr, rev_involutive.
    now apply lstrip_pad.
Qed.

(** The normaliser ignores letter case and surrounding white space. *)
Theorem clean_ignores_case_and_padding (left right x : text) :
  Forall (fun c => is_space c = true) left ->
  Forall (fun c => is_space c = true) right ->
  clean_transaction_details (left ++ upper x ++ right)
  = clean_transaction_details x.
Proof.
  intros Hl Hr. unfold clean_transaction_details.
  assert (E : strip (upper (left ++ upper x ++ right)) = strip (upper x)).
  { unfold upper at 1. rewrite !map_app. fold (upper left) (upper right).
    fold (upper (upper x)). rewrite upper_idempotent.
    apply strip_pad; unfold upper; apply Forall_forall; intros c Hin;
      apply in_map_iff in Hin; destruct Hin as [d [<- Hd]];
      rewrite is_space_to_upper.
    - rewrite Forall_forall in Hl. now apply Hl.
    - rewrite Forall_forall in Hr. now apply Hr. }
  now rewrite E.
Qed.

Lemma clean_ignores_case_and_padding_witness :
  clean_transaction_details (str "  " ++ upper (str "Tesco Stores") ++ str " ")
  = clean_transaction_details (str "Tesco Stores").
Proof.
  apply (clean_ignores_case_and_padding (str "  ") (str " ")
           (str "Tesco Stores")); repeat constructor.
Defined.

Lemma upper_strip_clean (details : text) :
  upper (strip (clean_transaction_details details))
  = clean_transaction_details details.
Proof.
  assert (Hs : strip (clean_transaction_details details)
               = clean_transaction_details details).
  { unfold clean_transaction_details.
    apply strip_join, split_from_words. constructor. }
  rewrite Hs. apply upper_fixed, clean_is_upper.
Qed.

(** The keyword [add_keyword_to_category] stores is the normalised details:
    the [.strip().upper()] after [extract_keyword] changes nothing. *)
Theorem keyword_is_clean_details (details : text) :
  upper (strip (extract_keyword details))
  = clean_transaction_details details.
Proof. unfold extract_keyword. apply upper_strip_clean. Qed.

(** ** The store under its operations *)

Lemma has_key_In (key : text) (m : store) :
  has_key key m = true <-> In key (map fst m).
Proof.
  unfold has_key. rewrite existsb_exists, in_map_iff. split.
  - intros [kv [Hin E]]. apply text_eqb_eq in E. now exists kv.
  - intros [kv [E Hin]]. exists kv. split; [assumption|].
    now apply text_eqb_eq.
Qed.

Lemma append_at_keys (key keyword : text) (m : store) :
  map fst (append_at key keyword m) = map fst m.
Proof.
  induction m as [|[k v] m IH]; simpl; [reflexivity|].
  destruct (text_eqb k key); simpl; [reflexivity | now rewrite IH].
Qed.

Lemma getitem_append_at_other (key other keyword : text) (m : store) :
  other <> key ->
  getitem other (append_at key keyword m) = getitem other m.
Proof.
  intros Hne. induction m as [|[k v] m IH]; simpl; [reflexivity|].
  destruct (text_eqb k key) eqn:E; simpl.
  - apply text_eqb_eq in E. subst k.
    assert (F : text_eqb key other = false)
      by (apply text_eqb_neq; congruence).
    now rewrite F.
  - destruct (text_eqb k other); [reflexivity | exact IH].
Qed.

(** When [add_keyword_to_category] returns [True], the keyword was new, it
    now stands at the end of its category's list, the category names and
    their order are as before, every other category has its list as before,
    and [categories.json] holds the new store. *)
Theorem add_keyword_success (s : session) (category details : text) :
  snd (add_keyword_to_category category details s) = Ok true ->
  let s1 := fst (add_keyword_to_category category details s) in
  let keyword := clean_transaction_details details in
  keyword <> []
  /\ (exists kws,
        getitem category (categories s) = Ok kws
        /\ ~ In keyword kws
        /\ getitem category (categories s1) = Ok (kws ++ [keyword]))
  /\ map fst (categories s1) = map fst (categories s)
  /\ (forall other, other <> category ->
        getitem other (categories s1) = getitem other (categories s))
  /\ category_file s1 = Some (categories s1).
Proof.
  unfold add_keyword_to_category, extract_keyword.
  rewrite upper_strip_clean.
  destruct (clean_transaction_details details) as [|c kw] eqn:Ekw;
    [discriminate|].
  destruct (getitem category (categories s)) as [kws|e] eqn:Eg;
    [|discriminate].
  destruct (mem (c :: kw) kws) eqn:Em; [discriminate|].
  intros _. cbn [fst snd categories category_file save_categories].
  split; [discriminate|]. split.
  - exists kws. split; [reflexivity|]. split.
    + intros Hin. apply mem_In in Hin. congruence.
    + now apply getitem_append_at.
  - split; [apply append_at_keys|]. split; [|reflexivity].
    intros other Hne. now apply getitem_append_at_other.
Qed.

Lemma add_keyword_success_witness :
  let s := init_session None None in
  let s1 := fst (add_keyword_to_category (str "Shopping") (str "etsy ltd cpm") s) in
  let keyword := clean_transaction_details (str "etsy ltd cpm") in
  keyword <> []
  /\ (exists kws,
        getitem (str "Shopping") (categories s) = Ok kws
        /\ ~ In keyword kws
        /\ getitem (str "Shopping") (categories s1) = Ok (kws ++ [keyword]))
  /\ map fst (categories s1) = map fst (categories s)
  /\ (forall other, other <> str "Shopping" ->
        getitem other (categories s1) = getitem other (categories s))
  /\ category_file s1 = Some (categories s1).
Proof.
  apply (add_keyword_success (init_session None None) (str "Shopping")
           (str "etsy ltd cpm")).
  vm_compute. reflexivity.
Defined.

Lemma DEFAULT_CATEGORIES_ok : store_ok DEFAULT_CATEGORIES.
Proof.
  split.
  - unfold DEFAULT_CATEGORIES. cbn [map fst].
    repeat (constructor; [simpl; intuition discriminate|]). constructor.
  - unfold DEFAULT_CATEGORIES.
    repeat (constructor;
            [split; [repeat (constructor; [simpl; intuition discriminate|]);
                     constructor
                    | simpl; intuition discriminate]|]).
    constructor.
Qed.

Lemma append_at_ok (key keyword : text) (m : store) (kws : list text) :
  store_ok m ->
  getitem key m = Ok kws ->
  keyword <> [] ->
  ~ In keyword kws ->
  store_ok (append_at key keyword m).
Proof.
  intros [Hk Hl] Hg Hne Hnew. split; [now rewrite append_at_keys|].
  clear Hk. revert Hg. induction Hl as [|[k v] m [Hv He] Hl IH]; simpl.
  - constructor.
  - destruct (text_eqb k key).
    + intros [= ->]. constructor; [|assumption]. simpl. split.
      * apply NoDup_app; [assumption | repeat constructor; intros [] |].
        intros x Hx [<- | []]. now apply Hnew.
      * intros Hin. apply in_app_or in Hin.
        destruct Hin as [Hin | [Hin | []]]; [now apply He | congruence].
    + intros Hg. constructor; [now split | now apply IH].
Qed.

Lemma add_category_ok (name : text) (s : session) :
  store_ok (categories s) -> store_ok (categories (add_category name s)).
Proof.
  intros [Hk Hl]. unfold add_category. destruct name as [|c name]; [now split|].
  destruct (has_key (c :: name) (categories s)) eqn:E; [now split|].
  simpl. split.
  - rewrite map_app. simpl. apply NoDup_app; [assumption | | ].
    + repeat constructor. intros [].
    + intros x Hx [<- | []]. apply has_key_In in Hx. congruence.
  - apply Forall_app. split; [assumption|].
    constructor; [|constructor]. simpl. split; [constructor | intros []].
Qed.

Lemma add_keyword_ok (category details : text) (s : session) :
  store_ok (categories s) ->
  store_ok (categories (fst (add_keyword_to_category category details s))).
Proof.
  intros H. unfold add_keyword_to_category.
  destruct (upper (strip (extract_keyword details))) as [|c kw]; [assumption|].
  destruct (getitem category (categories s)) as [kws|e] eqn:Eg; [|assumption].
  destruct (mem (c :: kw) kws) eqn:Em; [assumption|]. simpl.
  apply (append_at_ok category (c :: kw) (categories s) kws);
    try assumption; [discriminate|].
  intros Hin. apply mem_In in Hin. congruence.
Qed.

Lemma reachable_session_ok (s : session) : reachable s -> session_ok s.
Proof.
  induction 1 as [| s _ [Hc Hf] | s _ [Hc Hf] | s name _ [Hc Hf]
                 | s category details _ [Hc Hf] | s _ [Hc Hf]];
    unfold session_ok in *.
  - split; [apply DEFAULT_CATEGORIES_ok | discriminate].
  - unfold init_session. simpl. destruct (category_file s) as [m|]; auto.
  - unfold init_session. simpl. destruct (category_file s) as [m|]; simpl.
    + auto.
    + split; [apply DEFAULT_CATEGORIES_ok | discriminate].
  - split; [now apply add_category_ok|].
    unfold add_category. destruct name as [|c name]; [assumption|].
    destruct (has_key (c :: name) (categories s)) eqn:E; [assumption|].
    simpl. intros m [= <-].
    pose proof (add_category_ok (c :: name) s Hc) as H.
    unfold add_category in H. now rewrite E in H.
  - split; [now apply add_keyword_ok|].
    pose proof (add_keyword_ok category details s Hc) as H. revert H.
    unfold add_keyword_to_category.
    destruct (upper (strip (extract_keyword details))) as [|c kw];
      [intros _; assumption|].
    destruct (getitem category (categories s)) as [kws|e];
      [|intros _; assumption].
    destruct (mem (c :: kw) kws); [intros _; assumption|]. simpl.
    intros H m [= <-]. exact H.
  - simpl. split; [assumption|]. now intros m [= <-].
Qed.

(** In every session the program reaches from a first run without a
    persisted file, the category names are unique and no keyword list
    holds a keyword twice or holds the empty keyword. *)
Theorem reachable_store_ok (s : session) :
  reachable s ->
  NoDup (map fst (categories s))
  /\ (forall category kws,
        getitem category (categories s) = Ok kws ->
        NoDup kws /\ ~ In [] kws).
Proof.
  intros Hr. destruct (reachable_session_ok s Hr) as [[Hk Hl] _].
  split; [assumption|]. intros category kws.
  induction Hl as [|[k v] m Hkv Hl IH]; simpl; [discriminate|].
  inversion Hk; subst.
  destruct (text_eqb k category); [now intros [= <-] | now apply IH].
Qed.

Lemma reachable_store_ok_witness :
  let s := fst (add_keyword_to_category (str "Pets") (str "vet bill ddr")
                  (add_category (str "Pets") (init_session None None))) in
  NoDup (map fst (categories s))
  /\ (forall category kws,
        getitem category (categories s) = Ok kws ->
        NoDup kws /\ ~ In [] kws).
Proof.
  apply (reachable_store_ok
           (fst (add_keyword_to_category (str "Pets") (str "vet bill ddr")
                   (add_category (str "Pets") (init_session None None))))).
  apply reach_add_keyword, reach_add_category, reach_first_run.
Defined.

Lemma reachable_file_agrees (s : session) :
  reachable s -> forall m, category_file s = Some m -> m = categories s.
Proof.
  induction 1 as [| s _ IH | s _ IH | s name _ IH
                 | s category details _ IH | s _ IH].
  - discriminate.
  - unfold init_session. simpl. destruct (category_file s); congruence.
  - unfold init_session. simpl. destruct (category_file s); congruence.
  - unfold add_category. destruct name as [|c name]; [assumption|].
    destruct (has_key (c :: name) (categories s)); [assumption|].
    simpl. congruence.
  - unfold add_keyword_to_category.
    destruct (upper (strip (extract_keyword details))) as [|c kw];
      [assumption|].
    destruct (getitem category (categories s)) as [kws|e]; [|assumption].
    destruct (mem (c :: kw) kws); [assumption|]. simpl. congruence.
  - simpl. congruence.
Qed.

(** The store in memory and [categories.json] never diverge: in a
    reachable session a rerun of the script, which reloads the file when it
    exists, gives the session back unchanged, and once the file exists a
    new browser session starts from exactly the same store. *)
Theorem rerun_keeps_session (s : session) :
  reachable s ->
  init_session (Some (categories s)) (category_file s) = s
  /\ (category_file s <> None -> init_session None (category_file s) = s).
Proof.
  intros Hr. pose proof (reachable_file_agrees s Hr) as H.
  destruct s as [cats [m|]]; simpl in *; unfold init_session; simpl.
  - rewrite (H m eq_refl). split; reflexivity.
  - split; [reflexivity | congruence].
Qed.

Lemma rerun_keeps_session_witness :
  let s := fst (add_keyword_to_category (str "Shopping") (str "etsy ltd cpm")
                  (init_session None None)) in
  init_session (Some (categories s)) (category_file s) = s
  /\ (category_file s <> None -> init_session None (category_file s) = s).
Proof.
  apply (rerun_keeps_session
           (fst (add_keyword_to_category (str "Shopping") (str "etsy ltd cpm")
                   (init_session None None)))).
  apply reach_add_keyword, reach_first_run.
Defined.

Lemma getitem_app (key : text) (a b : store) :
  getitem key (a ++ b)
  = match getitem key a with
    | Ok v => Ok v
    | Raise _ => getitem key b
    end.
Proof.
  induction a as [|[k v] a IH]; simpl; [reflexivity|].
  destruct (text_eqb k key); [reflexivity | exact IH].
Qed.

Lemma getitem_present (key : text) (m : store) :
  has_key key m = true -> exists kws, getitem key m = Ok kws.
Proof.
  induction m as [|[k v] m IH]; [discriminate|].
  unfold has_key. simpl.
  destruct (text_eqb k key); [now exists v | exact IH].
Qed.

Lemma add_keyword_no_raise (category details : text) (s : session) (e : exn) :
  has_key category (categories s) = true ->
  snd (add_keyword_to_category category details s) <> Raise e.
Proof.
  intros H. destruct (getitem_present _ _ H) as [kws Hg].
  unfold add_keyword_to_category.
  destruct (upper (strip (extract_keyword details))) as [|a t];
    [discriminate|].
  rewrite Hg. destruct (mem (a :: t) kws); discriminate.
Qed.

Lemma add_category_cases (name : text) (s : session) :
  (add_category name s = s
   /\ (name = [] \/ has_key name (categories s) = true))
  \/ (name <> [] /\ has_key name (categories s) = false
      /\ add_category name s
         = {| categories := categories s ++ [(name, [])];
              category_file := Some (categories s ++ [(name, [])]) |}).
Proof.
  unfold add_category. destruct name as [|c name]; [left; auto|].
  destruct (has_key (c :: name) (categories s)); [left; auto|].
  right. repeat split. discriminate.
Qed.

(** Adding a category: a second click with the same name changes nothing,
    the categories already there keep their place and their keywords, and
    for a name that is not empty the category exists afterwards, so that
    adding a keyword to it does not raise. *)
Theorem add_category_spec (name : text) (s : session) :
  add_category name (add_category name s) = add_category name s
  /\ (exists added,
        categories (add_category name s) = categories s ++ added)
  /\ (forall other kws,
        getitem other (categories s) = Ok kws ->
        getitem other (categories (add_category name s)) = Ok kws)
  /\ (name <> [] ->
      has_key name (categories (add_category name s)) = true
      /\ forall details e,
           snd (add_keyword_to_category name details (add_category name s))
           <> Raise e).
Proof.
  assert (Hkey : name <> [] ->
                 has_key name (categories (add_category name s)) = true).
  { intros Hne.
    destruct (add_category_cases name s) as [[E [H|H]] | [_ [_ E]]];
      rewrite E; [congruence | assumption |].
    simpl. rewrite has_key_app. unfold has_key at 2. simpl.
    rewrite text_eqb_refl. apply orb_true_r. }
  split; [|split; [|split]].
  - destruct (add_category_cases name (add_category name s))
      as [[E _] | [Hne [H _]]]; [exact E|].
    rewrite Hkey in H by assumption. discriminate.
  - destruct (add_category_cases name s) as [[E _] | [_ [_ E]]]; rewrite E.
    + exists []. now rewrite app_nil_r.
    + now exists [(name, [])].
  - intros other kws Hg.
    destruct (add_category_cases name s) as [[E _] | [_ [_ E]]]; rewrite E;
      [assumption|].
    simpl. now rewrite getitem_app, Hg.
  - intros Hne. split; [now apply Hkey|].
    intros details e. apply add_keyword_no_raise. now apply Hkey.
Qed.

(** ** The categoriser and the store *)

Lemma assign_ext (a b : store) (details : text) :
  Forall2 (fun x y => matches x details = matches y details
                      /\ (matches x details = true -> fst x = fst y)) a b ->
  forall start, assign a start details = assign b start details.
Proof.
  induction 1 as [|x y a b [Hm Hf] _ IH]; intros start; [reflexivity|].
  unfold assign in *. simpl. rewrite <- Hm.
  destruct (matches x details) eqn:E; [rewrite (Hf eq_refl)|]; apply IH.
Qed.

Lemma Forall2_same {A : Type} (R : A -> A -> Prop) (l : list A) :
  (forall x, R x x) -> Forall2 R l l.
Proof. intros H. induction l; constructor; auto. Qed.

Lemma categorize_same_assign (a b : store) (df : list entry) :
  (forall details start,
     assign a start details = assign b start details) ->
  categorize_transactions a df = categorize_transactions b df.
Proof.
  intros H. rewrite !categorize_transactions_map. apply map_ext.
  intros e. now rewrite H.
Qed.

(** A category without keywords is never assigned: adding a category, new
    or not, leaves the categorisation of every table as it was. *)
Theorem add_category_keeps_categories (name : text) (s : session)
  (df : list entry) :
  categorize_transactions (categories (add_category name s)) df
  = categorize_transactions (categories s) df.
Proof.
  destruct (add_category_cases name s) as [[E _] | [_ [_ E]]]; rewrite E;
    [reflexivity|].
  apply categorize_same_assign. intros details start. simpl.
  rewrite assign_app. unfold assign at 1. simpl.
  unfold matches, skipped. simpl. now rewrite orb_true_r.
Qed.

(** Keywords filed under "Uncategorized" are never looked at: adding one
    changes the categorisation of no table. *)
Theorem uncategorized_keywords_ignored (keyword : text) (m : store)
  (df : list entry) :
  categorize_transactions (append_at Uncategorized keyword m) df
  = categorize_transactions m df.
Proof.
  apply categorize_same_assign. intros details.
  apply assign_ext.
  induction m as [|[k v] m IH]; simpl; [constructor|].
  destruct (text_eqb k Uncategorized) eqn:E.
  - constructor.
    + unfold matches, skipped. simpl. rewrite E. simpl. split; [reflexivity|].
      discriminate.
    + apply Forall2_same. intros x. split; reflexivity.
  - constructor; [split; reflexivity | exact IH].
Qed.

(** The category of a row is a function of the store and of the row's
    normalised details alone: the other rows and the other fields play no
    part, and a table is categorised piece by piece. *)
Theorem categorize_row_by_row (cats : store) :
  (forall a b,
     categorize_transactions cats (a ++ b)
     = categorize_transactions cats a ++ categorize_transactions cats b)
  /\ exists category_of : text -> text,
       forall df,
         map Category (categorize_transactions cats df)
         = map (fun e => category_of (clean_transaction_details (Details e)))
               df.
Proof.
  split.
  - intros a b. rewrite !categorize_transactions_map. apply map_app.
  - exists (fun cleaned =>
              fold_left (fun current item =>
                           if negb (skipped item)
                              && keyword_hit (snd item) cleaned
                           then fst item else current)
                        cats Uncategorized).
    intros df. rewrite categorize_transactions_map, map_map. reflexivity.
Qed.

Lemma categorize_default_witness :
  nth_error (categorize_transactions DEFAULT_CATEGORIES
               [entry_of "TESCO"; entry_of "zzz"]) 1
  = Some {| fields := entry_of "zzz"; Category := Uncategorized |}.
Proof.
  apply (categorize_default DEFAULT_CATEGORIES
           [entry_of "TESCO"; entry_of "zzz"] 1 (entry_of "zzz")).
  - reflexivity.
  - intros item Hin. unfold DEFAULT_CATEGORIES in Hin. simpl in Hin.
    repeat (destruct Hin as [<- | Hin]; [vm_compute; reflexivity|]).
    destruct Hin.
Defined.

Lemma startswith_refl (s : text) : startswith s s = true.
Proof.
  induction s as [|c s IH]; simpl; [reflexivity|].
  destruct (ascii_dec c c); [exact IH | congruence].
Qed.

Lemma contains_refl (s : text) : contains s s = true.
Proof.
  destruct s as [|c s]; [reflexivity|].
  change (contains (c :: s) (c :: s))
    with (startswith (c :: s) (c :: s) || contains s (c :: s)).
  now rewrite startswith_refl.
Qed.

Lemma append_at_middle (key keyword : text) (before after : store)
  (kws : list text) :
  has_key key before = false ->
  append_at key keyword (before ++ (key, kws) :: after)
  = before ++ (key, kws ++ [keyword]) :: after.
Proof.
  induction before as [|[k v] before IH]; simpl.
  - intros _. now rewrite text_eqb_refl.
  - unfold has_key. simpl. intros H. apply orb_false_iff in H.
    destruct H as [H1 H2]. rewrite H1. f_equal. now apply IH.
Qed.

Lemma getitem_middle (key : text) (before after : store) (kws : list text) :
  has_key key before = false ->
  getitem key (before ++ (key, kws) :: after) = Ok kws.
Proof.
  intros H. rewrite getitem_app, (getitem_absent _ _ H). simpl.
  now rewrite text_eqb_refl.
Qed.

(** The feedback loop: once the details of a transaction are added as a
    keyword to a category other than "Uncategorized", every transaction
    with the same normalised details is categorised there, provided no
    category later in the store matches it. *)
Theorem feedback_loop (s : session) (before after : store)
  (category : text) (kws : list text) (details : text)
  (df : list entry) (idx : nat) (e : entry) :
  categories s = before ++ (category, kws) :: after ->
  has_key category before = false ->
  category <> Uncategorized ->
  clean_transaction_details details <> [] ->
  (forall later, In later after -> matches later details = false) ->
  nth_error df idx = Some e ->
  clean_transaction_details (Details e) = clean_transaction_details details ->
  nth_error
    (categorize_transactions
       (categories (fst (add_keyword_to_category category details s))) df)
    idx
  = Some {| fields := e; Category := category |}.
Proof.
  intros Hs Hb Hu Hne Hlater Hrow Hsame.
  rewrite categorize_transactions_map, nth_error_map, Hrow.
  cbn [option_map]. do 2 f_equal.
  assert (Hhit : forall l,
             In (clean_transaction_details details) l ->
             matches (category, l) (Details e) = true).
  { intros l Hin. unfold matches, skipped. simpl.
    apply text_eqb_neq in Hu. rewrite Hu. simpl.
    destruct l as [|k l]; [destruct Hin|]. simpl negb. cbv iota.
    rewrite andb_true_l. unfold keyword_hit. apply existsb_exists.
    exists (clean_transaction_details details). split; [assumption|].
    rewrite Hsame, (upper_fixed _ (clean_is_upper details)).
    apply contains_refl. }
  assert (Hafter : forall later, In later after ->
                                 matches later (Details e) = false).
  { intros later Hin. rewrite <- (Hlater later Hin).
    unfold matches. now rewrite Hsame. }
  unfold add_keyword_to_category, extract_keyword.
  rewrite upper_strip_clean.
  destruct (clean_transaction_details details) as [|c kw] eqn:Ekw;
    [congruence|].
  rewrite Hs, (getitem_middle category before after kws Hb).
  destruct (mem (c :: kw) kws) eqn:Em; cbn [fst categories save_categories].
  - rewrite Hs.
    apply (assign_last_match before after (category, kws)); [|assumption].
    apply Hhit. now apply mem_In.
  - rewrite (append_at_middle category (c :: kw) before after kws Hb).
    apply (assign_last_match before after (category, kws ++ [c :: kw]));
      [|assumption].
    apply Hhit. apply in_or_app. right. now left.
Qed.

Lemma feedback_loop_witness :
  nth_error
    (categorize_transactions
       (categories
          (fst (add_keyword_to_category (str "Refunds") (str "Etsy Ltd  CPM")
                  (init_session None None))))
       [entry_of "TESCO"; entry_of "etsy ltd"]) 1
  = Some {| fields := entry_of "etsy ltd"; Category := str "Refunds" |}.
Proof.
  apply (feedback_loop (init_session None None)
           (firstn 14 DEFAULT_CATEGORIES) [(str "Other Income", [])]
           (str "Refunds") [str "REFUND"; str "REBATE"] (str "Etsy Ltd  CPM")
           [entry_of "TESCO"; entry_of "etsy ltd"] 1 (entry_of "etsy ltd")).
  - reflexivity.
  - vm_compute. reflexivity.
  - discriminate.
  - vm_compute. discriminate.
  - intros later [<- | []]. vm_compute. reflexivity.
  - reflexivity.
  - vm_compute. reflexivity.
Defined.

(** ** Keywords that can never match *)

Lemma contains_app (s needle : text) :
  contains s needle = true <-> exists pre post, s = pre ++ needle ++ post.
Proof.
  split.
  - induction s as [|c s IH]; intros H.
    + destruct needle; [|discriminate]. now exists [], [].
    + change (contains (c :: s) needle)
        with (startswith (c :: s) needle || contains s needle) in H.
      apply orb_true_iff in H. destruct H as [H|H].
      * apply startswith_app in H. destruct H as [t Ht].
        exists [], t. now rewrite Ht.
      * destruct (IH H) as [pre [post ->]]. now exists (c :: pre), post.
  - intros [pre [post ->]]. induction pre as [|c pre IH].
    + simpl.
      assert (H : startswith (needle ++ post) needle = true).
      { clear. induction needle as [|c n IH]; simpl.
        - now destruct post.
        - destruct (ascii_dec c c); [exact IH | congruence]. }
      revert H. generalize (needle ++ post). intros t H.
      destruct t as [|d t].
      * change (contains [] needle) with (startswith [] needle || false).
        now rewrite H.
      * change (contains (d :: t) needle)
          with (startswith (d :: t) needle || contains t needle).
        now rewrite H.
    + change (contains ((c :: pre) ++ needle ++ post) needle)
        with (startswith (c :: pre ++ needle ++ post) needle
              || contains (pre ++ needle ++ post) needle).
      rewrite IH. apply orb_true_r.
Qed.

Lemma single_spaced_tail (c : ascii) (s : text) :
  single_spaced (c :: s) = true -> single_spaced s = true.
Proof.
  destruct s as [|d s]; [reflexivity|].
  change (single_spaced (c :: d :: s))
    with (negb (is_space c && is_space d) && single_spaced (d :: s)).
  intros H. now apply andb_true_iff in H.
Qed.

Lemma single_spaced_suffix (pre s : text) :
  single_spaced (pre ++ s) = true -> single_spaced s = true.
Proof.
  induction pre as [|c pre IH]; [trivial|].
  intros H. apply IH. exact (single_spaced_tail c _ H).
Qed.

Lemma single_spaced_word (w rest : text) :
  Forall (fun c => is_space c = false) w ->
  single_spaced rest = true ->
  single_spaced (w ++ rest) = true.
Proof.
  induction 1 as [|c w Hc Hw IH]; intros Hr; [assumption|].
  specialize (IH Hr). simpl app.
  destruct (w ++ rest) as [|d t] eqn:E; [reflexivity|].
  change (single_spaced (c :: d :: t))
    with (negb (is_space c && is_space d) && single_spaced (d :: t)).
  now rewrite Hc, IH.
Qed.

Lemma single_spaced_join (ws : list text) :
  Forall word_ok ws -> single_spaced (join (str " ") ws) = true.
Proof.
  induction 1 as [|w ws [Hne Hw] Hws IH]; [reflexivity|].
  cbn [join]. destruct ws as [|w2 ws].
  - rewrite <- (app_nil_r w). now apply single_spaced_word.
  - apply single_spaced_word; [assumption|].
    change (str " " ++ join (str " ") (w2 :: ws))
      with (" "%char :: join (str " ") (w2 :: ws)).
    pose proof (join_head_ok (w2 :: ws) Hws) as [Hh _].
    destruct (join (str " ") (w2 :: ws)) as [|d t] eqn:E; [reflexivity|].
    change (single_spaced (" "%char :: d :: t))
      with (negb (is_space " "%char && is_space d) && single_spaced (d :: t)).
    simpl in Hh. rewrite Hh, IH. reflexivity.
Qed.

Lemma clean_single_spaced (x : text) :
  single_spaced (clean_transaction_details x) = true.
Proof.
  unfold clean_transaction_details.
  apply single_spaced_join, split_from_words. constructor.
Qed.

Lemma single_spaced_infix (pre s post : text) :
  single_spaced (pre ++ s ++ post) = true -> single_spaced s = true.
Proof.
  intros H. apply single_spaced_suffix in H. clear pre.
  revert H. induction s as [|c s IH]; [reflexivity|].
  intros H. pose proof (single_spaced_tail c _ H) as Ht.
  specialize (IH Ht).
  destruct s as [|d s]; [reflexivity|].
  change (single_spaced (c :: d :: s))
    with (negb (is_space c && is_space d) && single_spaced (d :: s)).
  rewrite IH, andb_true_r.
  change (single_spaced ((c :: d :: s) ++ post))
    with (negb (is_space c && is_space d)
          && single_spaced ((d :: s) ++ post)) in H.
  now apply andb_true_iff in H.
Qed.

Lemma double_spaced_no_hit (keyword details : text) :
  single_spaced keyword = false ->
  keyword_hit [keyword] (clean_transaction_details details) = false.
Proof.
  intros Hk. unfold keyword_hit. cbn [existsb]. rewrite orb_false_r.
  apply not_true_iff_false. intros Hc.
  apply contains_app in Hc. destruct Hc as [pre [post E]].
  pose proof (clean_single_spaced details) as Hs. rewrite E in Hs.
  apply single_spaced_infix in Hs.
  assert (Hu : single_spaced (upper keyword) = single_spaced keyword).
  { clear. induction keyword as [|c k IH]; [reflexivity|].
    destruct k as [|d k]; [reflexivity|].
    change (single_spaced (upper (c :: d :: k)))
      with (negb (is_space (to_upper c) && is_space (to_upper d))
            && single_spaced (upper (d :: k))).
    rewrite IH, !is_space_to_upper. reflexivity. }
  congruence.
Qed.

(** A keyword in which two white-space characters stand side by side
    matches no transaction: normalised details are single-spaced, and the
    keyword itself is upper-cased but not normalised before the test. *)
Theorem double_spaced_keyword_never_matches (keyword details : text) :
  single_spaced keyword = false ->
  keyword_hit [keyword] (clean_transaction_details details) = false.
Proof. apply double_spaced_no_hit. Qed.

Lemma double_spaced_keyword_never_matches_witness :
  keyword_hit [str "ARCADIA EXPR          SALARY"]
    (clean_transaction_details (str "ARCADIA EXPR          SALARY")) = false.
Proof.
  apply (double_spaced_keyword_never_matches
           (str "ARCADIA EXPR          SALARY")
           (str "ARCADIA EXPR          SALARY")).
  vm_compute. reflexivity.
Defined.

Lemma assign_matched (cats : store) (start details : text) :
  assign cats start details = start
  \/ exists item, In item cats /\ matches item details = true
                  /\ assign cats start details = fst item.
Proof.
  revert start. induction cats as [|item cats IH]; intros start;
    [now left|].
  unfold assign in *. simpl.
  destruct (IH (if matches item details then fst item else start))
    as [E | [it [Hin [Hm E]]]].
  - rewrite E. destruct (matches item details) eqn:M; [|now left].
    right. exists item. auto.
  - right. exists it. auto.
Qed.

(** With the default store no transaction is ever categorised as "Salary"
    or "Bonus": their only keywords hold a run of spaces. *)
Theorem default_salary_never_assigned (df : list entry) :
  Forall (fun row => Category row <> str "Salary"
                     /\ Category row <> str "Bonus")
         (categorize_transactions DEFAULT_CATEGORIES df).
Proof.
  rewrite categorize_transactions_map. apply Forall_forall.
  intros row Hin. apply in_map_iff in Hin. destruct Hin as [e [<- _]].
  cbn [Category].
  destruct (assign_matched DEFAULT_CATEGORIES Uncategorized (Details e))
    as [E | [item [Hin [Hm E]]]]; rewrite E.
  - split; discriminate.
  - assert (Hall :
      forallb (fun it =>
                 if text_eqb (fst it) (str "Salary")
                    || text_eqb (fst it) (str "Bonus")
                 then match snd it with
                      | [kw] => negb (single_spaced kw)
                      | _ => false
                      end
                 else true) DEFAULT_CATEGORIES = true)
      by (vm_compute; reflexivity).
    rewrite forallb_forall in Hall. specialize (Hall item Hin).
    destruct item as [k v]. cbn [fst snd] in *.
    assert (Hno : text_eqb k (str "Salary") || text_eqb k (str "Bonus")
                  = true -> False).
    { intros Hk. rewrite Hk in Hall.
      destruct v as [|kw [|kw2 v]]; try discriminate.
      apply negb_true_iff in Hall. unfold matches in Hm. cbn [snd] in Hm.
      rewrite (double_spaced_no_hit kw (Details e) Hall) in Hm.
      rewrite andb_false_r in Hm. discriminate. }
    split; intros ->; apply Hno.
    + now rewrite text_eqb_refl.
    + rewrite (text_eqb_refl (str "Bonus")). apply orb_true_r.
Qed.

(** ** The Barclays format *)


Section BarclaysFormat.

Variable File : Type.
Variable read_csv : File -> result frame.
Variable to_float : text -> result Q.
Variable to_datetime : text -> result date.

(** A Barclays export (one with "Subcategory" and "Memo" columns) loads
    exactly as the plain file that has its Date and Amount columns and its
    Memo column under the name "Details": same table or same error. *)
Theorem barclays_loads_as_plain (cats : store) (export plain : File)
  (raw : frame) (dates amounts memos : list text) :
  read_csv export = Ok raw ->
  mem (str "Subcategory") (column_names (strip_names raw)) = true ->
  mem (str "Memo") (column_names (strip_names raw)) = true ->
  column (str "Date") (strip_names raw) = Ok dates ->
  column (str "Amount") (strip_names raw) = Ok amounts ->
  column (str "Memo") (strip_names raw) = Ok memos ->
  read_csv plain
  = Ok [(str "Date", dates); (str "Amount", amounts); (str "Details", memos)] ->
  load_transactions File read_csv to_float to_datetime cats export
  = load_transactions File read_csv to_float to_datetime cats plain.
Proof.
  intros He Hs Hm Hd Ha Hmemo Hp.
  unfold load_transactions, load_body. rewrite He, Hp. cbn [bind].
  assert (E1 : barclays (strip_names raw)
               = Ok [(str "Date", dates); (str "Amount", amounts);
                     (str "Details", memos)]).
  { unfold barclays. rewrite Hs, Hm. cbn [andb].
    unfold select. cbn [filter].
    rewrite (column_present _ _ _ Hd), (column_present _ _ _ Ha), Hm.
    cbn [negb mapM]. rewrite Hd, Ha, Hmemo. reflexivity. }
  assert (E2 : barclays
                 (strip_names
                    [(str "Date", dates); (str "Amount", amounts);
                     (str "Details", memos)])
               = Ok [(str "Date", dates); (str "Amount", amounts);
                     (str "Details", memos)]).
  { reflexivity. }
  rewrite E1, E2. reflexivity.
Qed.

End BarclaysFormat.

Lemma barclays_loads_as_plain_witness :
  load_transactions frame sample_read_csv sample_to_float sample_to_datetime
    DEFAULT_CATEGORIES sample_barclays
  = load_transactions frame sample_read_csv sample_to_float sample_to_datetime
      DEFAULT_CATEGORIES sample_plain.
Proof.
  apply (barclays_loads_as_plain frame sample_read_csv sample_to_float
           sample_to_datetime DEFAULT_CATEGORIES sample_barclays sample_plain
           sample_barclays [str "15/03/2024"] [str "-23.50"]
           [str "TESCO STORES 1234 CLP"]); reflexivity.
Defined.

(** ** Debits, credits and the net position *)

Lemma Qsum_cons (a : Q) (l : list Q) : Qsum (a :: l) = (a + Qsum l)%Q.
Proof. reflexivity. Qed.

(** Every row of the table is in exactly one of the two views of [main],
    and the net position shown, total credits plus total debits, is the sum
    of all amounts. *)
Theorem debits_credits_partition (df : table) :
  length (debits_of df) + length (credits_of df) = length df
  /\ (forall row, In row df <->
                  In row (debits_of df) \/ In row (credits_of df))
  /\ (forall row, ~ (In row (debits_of df) /\ In row (credits_of df)))
  /\ (net_position df == total df)%Q.
Proof.
  split; [|split; [|split]].
  - unfold debits_of, credits_of.
    induction df as [|row df IH]; [reflexivity|]. simpl.
    destruct (Direction (fields row)); simpl; lia.
  - intros row. unfold debits_of, credits_of. rewrite !filter_In.
    destruct (Direction (fields row)); simpl; intuition discriminate.
  - intros row [H1 H2]. unfold debits_of, credits_of in *.
    apply filter_In in H1, H2. destruct H1 as [_ H1], H2 as [_ H2].
    destruct (Direction (fields row)); discriminate.
  - unfold net_position, total, debits_of, credits_of.
    induction df as [|row df IH]; [reflexivity|]. simpl filter.
    destruct (Direction (fields row)); simpl direction_eqb; cbv iota;
      cbn [map]; rewrite !Qsum_cons; rewrite <- IH; ring.
Qed.

Lemma Qsum_nonneg (l : list Q) :
  Forall (fun a => (0 <= a)%Q) l -> (0 <= Qsum l)%Q.
Proof.
  induction 1 as [|a l Ha Hl IH]; [apply Qle_refl|].
  rewrite Qsum_cons. rewrite <- (Qplus_0_l 0). now apply Qplus_le_compat.
Qed.

Lemma Qsum_nonpos (l : list Q) :
  Forall (fun a => (a <= 0)%Q) l -> (Qsum l <= 0)%Q.
Proof.
  induction 1 as [|a l Ha Hl IH]; [apply Qle_refl|].
  rewrite Qsum_cons. rewrite <- (Qplus_0_l 0). now apply Qplus_le_compat.
Qed.

Section LoadedTotals.

Variable File : Type.
Variable read_csv : File -> result frame.
Variable to_float : text -> result Q.
Variable to_datetime : text -> result date.

Lemma loaded_rows_direction (cats : store) (file : File) (df : table)
  (shown : list text) :
  load_transactions File read_csv to_float to_datetime cats file
  = (Some df, shown) ->
  Forall (fun row =>
            Direction (fields row) = direction_of (Amount (fields row))) df.
Proof.
  intros H. apply load_some, load_body_rows in H.
  destruct H as [dates [details [amounts ->]]].
  apply Forall_forall. intros row Hin.
  pose proof (rows_direction dates details amounts) as Hd.
  rewrite Forall_forall in Hd. apply Hd.
  rewrite categorize_transactions_map in Hin.
  apply in_map_iff in Hin. destruct Hin as [e [<- He]]. exact He.
Qed.

(** For a loaded table, every row of the income view has a positive
    amount and no row of the expenses view has one, so total credits are at
    least zero and total debits at most zero. *)
Theorem loaded_totals_signs (cats : store) (file : File) (df : table)
  (shown : list text) :
  load_transactions File read_csv to_float to_datetime cats file
  = (Some df, shown) ->
  Forall (fun row => ~ (0 < Amount (fields row))%Q) (debits_of df)
  /\ Forall (fun row => (0 < Amount (fields row))%Q) (credits_of df)
  /\ (total (debits_of df) <= 0)%Q
  /\ (0 <= total (credits_of df))%Q.
Proof.
  intros H. apply loaded_rows_direction in H. rewrite Forall_forall in H.
  assert (Hd : Forall (fun row => ~ (0 < Amount (fields row))%Q)
                 (debits_of df)).
  { apply Forall_forall. intros row Hin. unfold debits_of in Hin.
    apply filter_In in Hin. destruct Hin as [Hin Hdir].
    specialize (H row Hin).
    destruct (Direction (fields row)) eqn:E; [|discriminate].
    symmetry in H. now apply direction_of_not_credit in H. }
  assert (Hc : Forall (fun row => (0 < Amount (fields row))%Q)
                 (credits_of df)).
  { apply Forall_forall. intros row Hin. unfold credits_of in Hin.
    apply filter_In in Hin. destruct Hin as [Hin Hdir].
    specialize (H row Hin).
    destruct (Direction (fields row)) eqn:E; [discriminate|].
    symmetry in H. now apply direction_of_credit in H. }
  repeat split; try assumption.
  - apply Qsum_nonpos. apply Forall_forall. intros a Ha.
    apply in_map_iff in Ha. destruct Ha as [row [<- Hin]].
    rewrite Forall_forall in Hd. apply Qnot_lt_le. now apply Hd.
  - apply Qsum_nonneg. apply Forall_forall. intros a Ha.
    apply in_map_iff in Ha. destruct Ha as [row [<- Hin]].
    rewrite Forall_forall in Hc. apply Qlt_le_weak. now apply Hc.
Qed.

End LoadedTotals.

Lemma loaded_totals_signs_witness :
  exists df,
    load_transactions frame sample_read_csv sample_to_float sample_to_datetime
      DEFAULT_CATEGORIES sample_file = (Some df, [])
    /\ length (debits_of df) = 2
    /\ Forall (fun row => ~ (0 < Amount (fields row))%Q) (debits_of df)
    /\ Forall (fun row => (0 < Amount (fields row))%Q) (credits_of df)
    /\ (total (debits_of df) <= 0)%Q
    /\ (0 <= total (credits_of df))%Q.
Proof.
  eexists. split; [vm_compute; reflexivity|]. split; [reflexivity|].
  apply (loaded_totals_signs frame sample_read_csv sample_to_float
           sample_to_datetime DEFAULT_CATEGORIES sample_file _ []).
  vm_compute. reflexivity.
Defined.

(** ** The budget bar *)

(** The progress bar of the budget tracker is always given a value between
    0 and 1, whatever the budget limit (zero and negative limits included):
    [st.progress] is never called out of range and the division is never by
    zero. *)
Theorem progress_shown_in_range (df : table) (category : text)
  (budget_limit : Q) :
  exists q,
    progress_shown (actual_spending df category) budget_limit = Finite q
    /\ (0 <= q)%Q /\ (q <= 1)%Q.
Proof.
  unfold progress_shown, budget_progress, Qgt_bool, divide.
  set (actual := actual_spending df category).
  assert (Ha : (0 <= actual)%Q) by apply Qabs_nonneg.
  destruct (Qle_bool budget_limit 0) eqn:E; simpl.
  - exists (Qmin 0 1). split; [reflexivity|].
    split; [apply Q.min_glb; discriminate | apply Q.le_min_r].
  - assert (Hpos : (0 < budget_limit)%Q).
    { apply Qnot_le_lt. intros H. apply Qle_bool_iff in H. congruence. }
    destruct (Qeq_bool budget_limit 0) eqn:Z.
    + apply Qeq_bool_iff in Z. rewrite Z in Hpos.
      exfalso. exact (Qlt_irrefl 0 Hpos).
    + exists (Qmin (actual / budget_limit) 1). split; [reflexivity|].
      split; [|apply Q.le_min_r].
      apply Q.min_glb; [|discriminate].
      apply Qle_shift_div_l; [assumption|]. now rewrite Qmult_0_l.
Qed.

(** ** Monthly nets and projections *)

















(** ** The savings goal *)

(** With a positive goal and a last projection [p] that is not zero, the
    goal block shows [12 * (goal - p) / p] months: the projection twelve
    months ahead serves both as the current savings and, divided by 12, as
    the monthly rate.  The figure is negative as soon as the goal lies
    below a positive [p]. *)
Theorem months_to_goal_value (goal_amount : Q) (projections : list Q) :
  (0 < goal_amount)%Q ->
  ~ (last projections 0 == 0)%Q ->
  exists months,
    savings_goal goal_amount projections = Some (Finite months)
    /\ (months
        == 12 * (goal_amount - last projections 0) / last projections 0)%Q
    /\ ((0 < last projections 0)%Q ->
        (goal_amount < last projections 0)%Q -> (months < 0)%Q).
Proof.
  intros Hg Hp. unfold savings_goal.
  assert (E : Qgt_bool goal_amount 0 = true).
  { unfold Qgt_bool. apply negb_true_iff, not_true_iff_false.
    intros H. apply Qle_bool_iff in H. exact (Qlt_not_le _ _ Hg H). }
  rewrite E. unfold divide.
  set (p := last projections 0%Q) in *.
  assert (Z : Qeq_bool (p / 12) 0 = false).
  { apply not_true_iff_false. intros H. apply Qeq_bool_iff in H.
    apply Hp. setoid_replace p with (p / 12 * 12)%Q by field.
    rewrite H. ring. }
  rewrite Z. exists ((goal_amount - p) / (p / 12))%Q.
  split; [reflexivity|].
  assert (Hv : ((goal_amount - p) / (p / 12) == 12 * (goal_amount - p) / p)%Q)
    by (field; exact Hp).
  split; [exact Hv|].
  intros Hpos Hlt. rewrite Hv.
  apply Qlt_shift_div_r; [assumption|]. rewrite Qmult_0_l.
  setoid_replace 0%Q with (12 * 0)%Q by ring.
  apply Qmult_lt_l; [reflexivity|].
  apply (Qplus_lt_l _ _ p). ring_simplify. exact Hlt.
Qed.

Lemma months_to_goal_value_witness :
  exists months,
    savings_goal 100 [1200; 1300; 2400]%Q = Some (Finite months)
    /\ (months == 12 * (100 - last [1200; 1300; 2400] 0) / last [1200; 1300; 2400] 0)%Q
    /\ ((0 < last [1200; 1300; 2400] 0)%Q ->
        (100 < last [1200; 1300; 2400] 0)%Q -> (months < 0)%Q).
Proof.
  apply (months_to_goal_value 100 [1200; 1300; 2400]%Q).
  - reflexivity.
  - discriminate.
Defined.

(** ** Apply Changes *)

Lemma store_grows_refl (m : store) : store_grows m m.
Proof.
  induction m as [|kv m IH]; constructor; [|exact IH].
  split; [reflexivity|]. exists []. now rewrite app_nil_r.
Qed.

Lemma store_grows_trans (a b c : store) :
  store_grows a b -> store_grows b c -> store_grows a c.
Proof.
  intros Hab. revert c. induction Hab as [|x y a b [Hk [l1 H1]] _ IH];
    intros c Hbc; inversion Hbc as [|? z ? c' [Hk2 [l2 H2]] Hbc']; subst.
  - constructor.
  - constructor; [|now apply IH]. split; [congruence|].
    exists (l1 ++ l2). now rewrite H2, H1, app_assoc.
Qed.

Lemma store_grows_append_at (key keyword : text) (m : store) :
  store_grows m (append_at key keyword m).
Proof.
  induction m as [|[k v] m IH]; simpl; [constructor|].
  destruct (text_eqb k key).
  - constructor; [|apply store_grows_refl]. split; [reflexivity|].
    now exists [keyword].
  - constructor; [|exact IH]. split; [reflexivity|].
    exists []. now rewrite app_nil_r.
Qed.

Lemma add_keyword_grows (category details : text) (s : session) :
  store_grows (categories s)
    (categories (fst (add_keyword_to_category category details s))).
Proof.
  unfold add_keyword_to_category.
  destruct (upper (strip (extract_keyword details))) as [|c kw];
    [apply store_grows_refl|].
  destruct (getitem category (categories s)) as [kws|e];
    [|apply store_grows_refl].
  destruct (mem (c :: kw) kws); [apply store_grows_refl|].
  apply store_grows_append_at.
Qed.

Lemma set_category_fields (idx : nat) (c : text) (df : table) :
  map fields (set_category idx c df) = map fields df.
Proof.
  revert idx. induction df as [|row df IH]; intros [|idx]; simpl;
    try reflexivity. now rewrite IH.
Qed.

Lemma apply_changes_from_frame (edited : table) (idx : nat) (s : session)
  (debits : table) :
  let '(s1, debits1, _) := apply_changes_from idx edited s debits in
  map fields debits1 = map fields debits
  /\ store_grows (categories s) (categories s1).
Proof.
  revert idx s debits.
  induction edited as [|row rest IH]; intros idx s debits;
    cbn [apply_changes_from].
  - split; [reflexivity | apply store_grows_refl].
  - destruct (nth_error debits idx) as [old|].
    2:{ split; [reflexivity | apply store_grows_refl]. }
    destruct (text_eqb (Category row) (Category old)); [apply IH|].
    pose proof (add_keyword_grows (Category row) (Details (fields row)) s)
      as Hg.
    destruct (add_keyword_to_category (Category row)
                (Details (fields row)) s) as [s1 [b|e]]; cbn [fst] in Hg.
    + specialize (IH (S idx) s1 (set_category idx (Category row) debits)).
      destruct (apply_changes_from (S idx) rest s1 _) as [[s2 d2] r].
      destruct IH as [Hf Hs]. split.
      * now rewrite Hf, set_category_fields.
      * exact (store_grows_trans _ _ _ Hg Hs).
    + split; [apply set_category_fields | exact Hg].
Qed.

(** Apply Changes never touches the Date, Details and Amount of a row of
    [debits_df] and never removes or reorders anything in the store: in
    every case, also when a [KeyError] stops the loop, the category names
    and their order are as before and every keyword list is the old one
    with keywords appended. *)
Theorem apply_changes_frame (edited : table) (s : session) (debits : table) :
  let '(s1, debits1, _) := apply_changes edited s debits in
  map fields debits1 = map fields debits
  /\ store_grows (categories s) (categories s1).
Proof.
  unfold apply_changes.
  pose proof (apply_changes_from_frame edited 0 s debits) as H.
  destruct (apply_changes_from 0 edited s debits) as [[s1 d1] [e|]];
    exact H.
Qed.



Lemma apply_changes_from_categories (edited : table) (pre post : table)
  (s s1 : session) (debits1 : table) :
  length post = length edited ->
  apply_changes_from (length pre) edited s (pre ++ post)
  = (s1, debits1, None) ->
  map Category debits1 = map Category pre ++ map Category edited.
Proof.
  revert pre post s.
  induction edited as [|row rest IH]; intros pre post s Hlen;
    cbn [apply_changes_from].
  - destruct post; [|discriminate]. intros [= _ <-].
    now rewrite map_app.
  - destruct post as [|old post]; [discriminate|].
    rewrite nth_error_app2 by lia. rewrite Nat.sub_diag. cbn [nth_error].
    injection Hlen as Hlen.
    assert (Hstep : forall c s',
               Category row = c ->
               apply_changes_from (S (length pre)) rest s'
                 (pre ++ {| fields := fields old; Category := c |} :: post)
               = (s1, debits1, None) ->
               map Category debits1
               = map Category pre ++ map Category (row :: rest)).
    { intros c s' Hc Hrun.
      replace (S (length pre))
        with (length (pre ++ [{| fields := fields old; Category := c |}]))
        in Hrun by (rewrite length_app; simpl; lia).
      replace (pre ++ {| fields := fields old; Category := c |} :: post)
        with ((pre ++ [{| fields := fields old; Category := c |}]) ++ post)
        in Hrun by (rewrite <- app_assoc; reflexivity).
      apply IH in Hrun; [|assumption].
      rewrite Hrun, map_app, <- app_assoc. simpl. now rewrite Hc. }
    destruct (text_eqb (Category row) (Category old)) eqn:E.
    + apply text_eqb_eq in E. intros Hrun.
      apply (Hstep (Category old) s); [assumption|].
      now destruct old.
    + rewrite set_category_middle.
      destruct (add_keyword_to_category (Category row)
                  (Details (fields row)) s) as [s' [b|e]];
        [|discriminate].
      intros Hrun. now apply (Hstep (Category row) s').
Qed.

(** When Apply Changes runs to its end on an edited table with as many
    rows as [debits_df], every row of [debits_df] has the category of the
    edited row and its other fields as before, and [categories.json] holds
    the store. *)
Theorem apply_changes_applies (edited : table) (s s1 : session)
  (debits debits1 : table) :
  length debits = length edited ->
  apply_changes edited s debits = (s1, debits1, None) ->
  map Category debits1 = map Category edited
  /\ map fields debits1 = map fields debits
  /\ category_file s1 = Some (categories s1).
Proof.
  intros Hlen. unfold apply_changes.
  pose proof (apply_changes_from_frame edited 0 s debits) as Hf.
  destruct (apply_changes_from 0 edited s debits) as [[s0 d0] [e|]] eqn:E;
    [discriminate|].
  intros [= <- <-]. destruct Hf as [Hf _].
  split; [|split; [exact Hf | reflexivity]].
  exact (apply_changes_from_categories edited [] debits s s0 d0 Hlen E).
Qed.

Lemma apply_changes_applies_witness :
  exists s1 debits1,
    apply_changes
      [ {| fields := entry_of "ETSY LTD CPM"; Category := str "Shopping" |};
        {| fields := entry_of "TESCO"; Category := str "Groceries" |} ]
      (init_session None None)
      (categorize_transactions DEFAULT_CATEGORIES
         [entry_of "ETSY LTD CPM"; entry_of "TESCO"])
    = (s1, debits1, None)
    /\ map Category debits1 = [str "Shopping"; str "Groceries"]
    /\ map fields debits1 = [entry_of "ETSY LTD CPM"; entry_of "TESCO"]
    /\ category_file s1 = Some (categories s1).
Proof.
  eexists. eexists. split; [vm_compute; reflexivity|].
  apply (apply_changes_applies
           [ {| fields := entry_of "ETSY LTD CPM"; Category := str "Shopping" |};
             {| fields := entry_of "TESCO"; Category := str "Groceries" |} ]
           (init_session None None) _
           (categorize_transactions DEFAULT_CATEGORIES
              [entry_of "ETSY LTD CPM"; entry_of "TESCO"]) _).
  - reflexivity.
  - vm_compute. reflexivity.
Defined.

(** ** What the loader shows for a missing column *)


Section MissingColumns.

Variable File : Type.
Variable read_csv : File -> result frame.
Variable to_float : text -> result Q.
Variable to_datetime : text -> result date.

(** A file without an "Amount" column is rejected with the message of the
    [KeyError], "Error processing file: 'Amount'": the amounts are looked
    up before the check of the required columns is reached, so its
    "Missing required columns" message is not what the user sees. *)
Theorem missing_amount_message (cats : store) (file : File) (raw df : frame) :
  read_csv file = Ok raw ->
  barclays (strip_names raw) = Ok df ->
  mem (str "Amount") (column_names df) = false ->
  load_transactions File read_csv to_float to_datetime cats file
  = (None, [str "Error processing file: 'Amount'"]).
Proof.
  intros Hr Hb Ha. unfold load_transactions, load_body.
  rewrite Hr. cbn [bind]. rewrite Hb. cbn [bind].
  rewrite (column_absent _ _ Ha). reflexivity.
Qed.

End MissingColumns.

Lemma missing_amount_message_witness :
  load_transactions frame sample_read_csv sample_to_float sample_to_datetime
    DEFAULT_CATEGORIES sample_no_amount
  = (None, [str "Error processing file: 'Amount'"]).
Proof.
  apply (missing_amount_message frame sample_read_csv sample_to_float
           sample_to_datetime DEFAULT_CATEGORIES sample_no_amount
           sample_no_amount sample_no_amount); reflexivity.
Defined.
